(** * Persistence and trip-session core of the passenger-transport logbook

    A shallow embedding of
    - the QR scanning page (component [ScanQR]: [buildGroupStorageKey],
      [loadData], [iniciarViaje], [finalizarViaje], [finalizarRuta],
      [handleQRScan], [handleManualEntry], [tripsByRoute]),
    - the durable store ([IndexedDBService]: [getAll], [getById], [save],
      [saveAll], [delete], [clearPassengers], [clearAll],
      [migrateFromLocalStorage]),
    - the storage facade ([storage]: [saveUsers], [getUsers],
      [savePassengers], [saveConductors], [clearAll]),
    - the passenger import ([processPassengersFromImport],
      [saveImportedPassengers]),
    - the handlers of the passengers, conductors and users pages that save
      and delete ([handleSubmit], [handleDelete], [handleClearPassengers],
      [loadPassengers]),
    together with the properties of the specification that concern them and
    further properties of the code. *)

From Stdlib Require Import String Ascii List Bool Arith NArith Lia.
From stdpp Require Import base option list gmap strings pretty fin_maps sorting.
Import ListNotations.
Local Open Scope string_scope.

(** ** JavaScript values as the code uses them *)

(** Truthiness of a string: only the empty string is falsy. *)
Definition truthy (s : string) : bool :=
  match s with
  | EmptyString => false
  | String _ _ => true
  end.

(** [a || b] where [a] is a possibly undefined string. *)
Definition or_else (a : option string) (b : string) : string :=
  match a with
  | Some x => if truthy x then x else b
  | None => b
  end.

(** [a || null] where [a] is a possibly missing string. *)
Definition or_null (a : option string) : option string :=
  match a with
  | Some x => if truthy x then Some x else None
  | None => None
  end.

(** [o === s] for an optional field [o] and a string [s]. *)
Definition opt_eqb (o : option string) (s : string) : bool :=
  match o with
  | Some x => String.eqb x s
  | None => false
  end.

(** ** Data model (interfaces [Trip], [Passenger], [Conductor], [User]) *)

Inductive Shift := manana | noche.
Inductive Status := en_curso | finalizado.
Inductive Role := root | admin | conductor_role.

Definition shift_string (s : Shift) : string :=
  match s with
  | manana => "mañana"
  | noche => "noche"
  end.

Record Trip := mkTrip {
  trip_id : string;
  trip_groupId : option string;
  trip_shift : option Shift;
  trip_passengerId : string;
  trip_passengerName : string;
  trip_passengerCedula : string;
  trip_conductorId : string;
  trip_conductorName : string;
  trip_ruta : string;
  trip_startTime : string;
  trip_endTime : option string;
  trip_status : Status;
  trip_createdAt : string
}.

Record Passenger := mkPassenger {
  p_id : string;
  p_name : string;
  p_cedula : string;
  p_gerencia : string;
  p_qrCode : string;
  p_createdAt : string
}.

Record Conductor := mkConductor {
  c_id : string;
  c_name : string;
  c_cedula : string;
  c_placa : string;
  c_area : option string;
  c_ruta : option string;
  c_createdAt : string
}.

Record User := mkUser {
  u_id : string;
  u_name : string;
  u_cedula : string;
  u_role : Role;
  u_createdAt : string
}.

Definition status_eqb (a b : Status) : bool :=
  match a, b with
  | en_curso, en_curso | finalizado, finalizado => true
  | _, _ => false
  end.

Definition is_en_curso (t : Trip) : bool := status_eqb (trip_status t) en_curso.

(** [{ ...trip, status: 'finalizado', endTime: now }] *)
Definition finalized_at (now : string) (t : Trip) : Trip :=
  {| trip_id := trip_id t;
     trip_groupId := trip_groupId t;
     trip_shift := trip_shift t;
     trip_passengerId := trip_passengerId t;
     trip_passengerName := trip_passengerName t;
     trip_passengerCedula := trip_passengerCedula t;
     trip_conductorId := trip_conductorId t;
     trip_conductorName := trip_conductorName t;
     trip_ruta := trip_ruta t;
     trip_startTime := trip_startTime t;
     trip_endTime := Some now;
     trip_status := finalizado;
     trip_createdAt := trip_createdAt t |}.

(** ** The scanning page *)

Module ScanQR.

Inductive ResultType := success | error.

Record ScanResult := mkScanResult {
  sr_type : ResultType;
  sr_message : string
}.

(** One reading of the system clock, seen through [Date.now()] and through
    [new Date().toISOString()]. *)
Record Instant := mkInstant {
  epochMs : N;
  isoString : string
}.

(** What the page holds where it expects an array of records: an array, or
    a promise of one.  [storage.getPassengers] and [storage.getConductors]
    are [async] in [utils/storage], so a call returns a promise; the page
    does not await it. *)
Inductive Listing (A : Type) :=
  | ArrayOf (items : list A)
  | PromiseOf (items : list A).
Arguments ArrayOf {A} items.
Arguments PromiseOf {A} items.

(** Everything a handler of the page reads or writes. *)
Record State := mkState {
  (* window.localStorage: the trips snapshot under 'transport_trips' and
     every other key *)
  ls_trips : list Trip;
  ls_items : gmap string string;
  (* the collections of the durable store behind storage.getPassengers()
     and storage.getConductors() *)
  db_passengers : list Passenger;
  db_conductors : list Conductor;
  (* useAuth() *)
  user : option User;
  (* React state *)
  activeTrips : list Trip;
  passengers : Listing Passenger;
  conductors : Listing Conductor;
  currentGroupId : option string;
  shift : option Shift;
  scanResult : option ScanResult;
  (* the clock: its successive readings, and how many were taken so far *)
  clock : nat -> Instant;
  tick : nat
}.

Definition with_ls_trips (v : list Trip) (s : State) : State :=
  mkState v (ls_items s) (db_passengers s) (db_conductors s) (user s)
    (activeTrips s) (passengers s) (conductors s) (currentGroupId s) (shift s)
    (scanResult s) (clock s) (tick s).

Definition with_ls_items (v : gmap string string) (s : State) : State :=
  mkState (ls_trips s) v (db_passengers s) (db_conductors s) (user s)
    (activeTrips s) (passengers s) (conductors s) (currentGroupId s) (shift s)
    (scanResult s) (clock s) (tick s).

Definition with_activeTrips (v : list Trip) (s : State) : State :=
  mkState (ls_trips s) (ls_items s) (db_passengers s) (db_conductors s) (user s)
    v (passengers s) (conductors s) (currentGroupId s) (shift s)
    (scanResult s) (clock s) (tick s).

Definition with_passengers (v : Listing Passenger) (s : State) : State :=
  mkState (ls_trips s) (ls_items s) (db_passengers s) (db_conductors s) (user s)
    (activeTrips s) v (conductors s) (currentGroupId s) (shift s)
    (scanResult s) (clock s) (tick s).

Definition with_conductors (v : Listing Conductor) (s : State) : State :=
  mkState (ls_trips s) (ls_items s) (db_passengers s) (db_conductors s) (user s)
    (activeTrips s) (passengers s) v (currentGroupId s) (shift s)
    (scanResult s) (clock s) (tick s).

Definition with_currentGroupId (v : option string) (s : State) : State :=
  mkState (ls_trips s) (ls_items s) (db_passengers s) (db_conductors s) (user s)
    (activeTrips s) (passengers s) (conductors s) v (shift s)
    (scanResult s) (clock s) (tick s).

Definition with_shift (v : option Shift) (s : State) : State :=
  mkState (ls_trips s) (ls_items s) (db_passengers s) (db_conductors s) (user s)
    (activeTrips s) (passengers s) (conductors s) (currentGroupId s) v
    (scanResult s) (clock s) (tick s).

Definition with_scanResult (v : option ScanResult) (s : State) : State :=
  mkState (ls_trips s) (ls_items s) (db_passengers s) (db_conductors s) (user s)
    (activeTrips s) (passengers s) (conductors s) (currentGroupId s) (shift s)
    v (clock s) (tick s).

Definition with_tick (v : nat) (s : State) : State :=
  mkState (ls_trips s) (ls_items s) (db_passengers s) (db_conductors s) (user s)
    (activeTrips s) (passengers s) (conductors s) (currentGroupId s) (shift s)
    (scanResult s) (clock s) v.

(** *** Handlers are state transformers that may throw *)

Inductive Exception := TypeError.

Inductive Completion (A : Type) :=
  | Normal (a : A)
  | Throw (e : Exception).
Arguments Normal {A} a.
Arguments Throw {A} e.

(** What was written before an exception stays written. *)
Definition M (A : Type) : Type := State -> Completion A * State.

Definition ret {A} (a : A) : M A := fun s => (Normal a, s).

Definition throw {A} (e : Exception) : M A := fun s => (Throw e, s).

Definition bind {A B} (m : M A) (k : A -> M B) : M B :=
  fun s =>
    match m s with
    | (Normal a, s') => k a s'
    | (Throw e, s') => (Throw e, s')
    end.

Notation "'let*' x ':=' m 'in' k" := (bind m (fun x => k))
  (at level 10, x name, m at level 100, k at level 200, only parsing).
Notation "m >> k" := (bind m (fun _ => k))
  (at level 100, k at level 200, right associativity, only parsing).

Definition get : M State := fun s => (Normal s, s).
Definition modify (f : State -> State) : M unit := fun s => (Normal tt, f s).
Definition exec {A} (m : M A) (s : State) : State := snd (m s).
Definition completion {A} (m : M A) (s : State) : Completion A := fst (m s).

Fixpoint mapM {A B} (f : A -> M B) (l : list A) : M (list B) :=
  match l with
  | [] => ret []
  | x :: xs => let* y := f x in let* ys := mapM f xs in ret (y :: ys)
  end.

(** [Date.now()] and [new Date().toISOString()]: each call takes the next
    reading of the clock. *)
Definition Date_now : M N :=
  fun s => (Normal (epochMs (clock s (tick s))), with_tick (S (tick s)) s).

Definition toISOString : M string :=
  fun s => (Normal (isoString (clock s (tick s))), with_tick (S (tick s)) s).

(** The storage facade: the trips are read from and written to
    localStorage on the spot; passengers and conductors come as promises. *)
Definition getTrips : M (list Trip) := fun s => (Normal (ls_trips s), s).
Definition saveTrips (trips : list Trip) : M unit := modify (with_ls_trips trips).
Definition getPassengers : M (Listing Passenger) :=
  fun s => (Normal (PromiseOf (db_passengers s)), s).
Definition getConductors : M (Listing Conductor) :=
  fun s => (Normal (PromiseOf (db_conductors s)), s).

Definition getItem (key : string) : M (option string) :=
  fun s => (Normal (ls_items s !! key), s).
Definition setItem (key value : string) : M unit :=
  modify (fun s => with_ls_items (<[key := value]> (ls_items s)) s).
Definition removeItem (key : string) : M unit :=
  modify (fun s => with_ls_items (delete key (ls_items s)) s).

(** React setters. *)
Definition setActiveTrips v : M unit := modify (with_activeTrips v).
Definition setPassengers v : M unit := modify (with_passengers v).
Definition setConductors v : M unit := modify (with_conductors v).
Definition setCurrentGroupId v : M unit := modify (with_currentGroupId v).
Definition setShift v : M unit := modify (with_shift v).
Definition setScanResult v : M unit := modify (with_scanResult (Some v)).

(** [xs.find(pred)]: an array is searched; a promise has no [find], and the
    call throws a [TypeError]. *)
Definition find {A} (xs : Listing A) (pred : A -> bool) : M (option A) :=
  match xs with
  | ArrayOf items => ret (List.find pred items)
  | PromiseOf _ => throw TypeError
  end.

(** *** The group key *)

(** [new Date().toISOString().slice(0, 10)] *)
Definition day_of (iso : string) : string := substring 0 10 iso.

(** The template string of [buildGroupStorageKey], for a given day. *)
Definition groupStorageKey (conductorId ruta : string) (currentShift : option Shift)
    (day : string) : string :=
  "transport_current_group_" +:+ conductorId +:+ "_" +:+
  (if truthy ruta then ruta else "sin_ruta") +:+ "_" +:+
  (match currentShift with Some sh => shift_string sh | None => "sin_turno" end)
  +:+ "_" +:+ day.

Definition buildGroupStorageKey (conductorId ruta : string)
    (currentShift : option Shift) : M string :=
  let* iso := toISOString in
  ret (groupStorageKey conductorId ruta currentShift (day_of iso)).

(** [conductors.find(c => c.cedula === user?.cedula)] *)
Definition find_conductor (cs : Listing Conductor) (u : option User)
    : M (option Conductor) :=
  find cs (fun c => match u with
                    | Some usr => String.eqb (c_cedula c) (u_cedula usr)
                    | None => false
                    end).

(** [conductor?.id || user?.id || ''] *)
Definition conductorId_of (c : option Conductor) (u : option User) : string :=
  or_else (c_id <$> c) (or_else (u_id <$> u) "").

(** [conductor?.name || user?.name || ''] *)
Definition conductorName_of (c : option Conductor) (u : option User) : string :=
  or_else (c_name <$> c) (or_else (u_name <$> u) "").

(** [conductor?.ruta || dflt] *)
Definition ruta_of (c : option Conductor) (dflt : string) : string :=
  or_else (c ≫= c_ruta) dflt.

Definition loadData : M unit :=
  let* s0 := get in
  let* trips := getTrips in
  let* passengersData := getPassengers in
  let* conductorsData := getConductors in
  setActiveTrips (List.filter is_en_curso trips) >>
  setPassengers passengersData >>
  setConductors conductorsData >>
  let* conductor := find_conductor conductorsData (user s0) in
  let* key := buildGroupStorageKey (conductorId_of conductor (user s0))
           (ruta_of conductor "") (shift s0) in
  let* existingGroupId := getItem key in
  setCurrentGroupId (or_null existingGroupId).

(** *** Starting and finalizing trips *)

Definition msg_select_shift : string :=
  "Seleccione el turno (mañana o noche) antes de registrar.".
Definition msg_capacity : string :=
  "Capacidad máxima alcanzada (18 pasajeros en este turno).".

(** Lines 159-165 of [iniciarViaje]: look the group of the session up, mint
    and store one when there is none. *)
Definition ensureGroup (conductorId ruta : string) (sh : option Shift) : M string :=
  let* groupKey := buildGroupStorageKey conductorId ruta sh in
  let* stored := getItem groupKey in
  let* groupId := match or_null stored with
             | Some g => ret g
             | None =>
                 let* now := Date_now in
                 let g := conductorId +:+ "-" +:+ pretty now in
                 setItem groupKey g >>
                 ret g
             end in
  setCurrentGroupId (Some groupId) >>
  ret groupId.

Definition iniciarViaje (passenger : Passenger) : M unit :=
  let* s0 := get in
  let* conductor := find_conductor (conductors s0) (user s0) in
  match shift s0 with
  | None => setScanResult (mkScanResult error msg_select_shift)
  | Some sh =>
      let conductorId := conductorId_of conductor (user s0) in
      let ruta := ruta_of conductor "Ruta no especificada" in
      let* groupId := ensureGroup conductorId ruta (Some sh) in
      let* trips := getTrips in
      let currentGroupTrips :=
        List.filter (fun t => opt_eqb (trip_groupId t) groupId) trips in
      if (18 <=? length currentGroupTrips)%nat then
        setScanResult (mkScanResult error msg_capacity)
      else
        let* idNow := Date_now in
        let* startTime := toISOString in
        let* createdAt := toISOString in
        let newTrip :=
          {| trip_id := pretty idNow;
             trip_groupId := Some groupId;
             trip_shift := Some sh;
             trip_passengerId := p_id passenger;
             trip_passengerName := p_name passenger;
             trip_passengerCedula := p_cedula passenger;
             trip_conductorId := conductorId_of conductor (user s0);
             trip_conductorName := conductorName_of conductor (user s0);
             trip_ruta := ruta_of conductor "Ruta no especificada";
             trip_startTime := startTime;
             trip_endTime := None;
             trip_status := en_curso;
             trip_createdAt := createdAt |} in
        saveTrips (trips ++ [newTrip]) >>
        loadData
  end.

Definition finalizarViaje (tripId : string) : M unit :=
  let* trips := getTrips in
  let* updatedTrips := mapM (fun trip =>
                    if String.eqb (trip_id trip) tripId then
                      let* now := toISOString in ret (finalized_at now trip)
                    else ret trip) trips in
  saveTrips updatedTrips >>
  loadData.

(** [confirmed] is the answer of [window.confirm]. *)
Definition finalizarRuta (ruta : string) (confirmed : bool) : M unit :=
  if confirmed then
    let* s0 := get in
    let tripsToFinalize :=
      List.filter (fun trip => String.eqb (trip_ruta trip) ruta) (activeTrips s0) in
    let* trips := getTrips in
    let* updatedTrips := mapM (fun trip =>
                      if existsb (fun t => String.eqb (trip_id t) (trip_id trip))
                           tripsToFinalize then
                        let* now := toISOString in ret (finalized_at now trip)
                      else ret trip) trips in
    saveTrips updatedTrips >>
    let* conductor := find_conductor (conductors s0) (user s0) in
    let conductorId := conductorId_of conductor (user s0) in
    let* groupKey := buildGroupStorageKey conductorId ruta (shift s0) in
    removeItem groupKey >>
    setCurrentGroupId None >>
    loadData
  else ret tt.

(** The [onChange] handler of the shift selector. *)
Definition selectShift (value : option Shift) : M unit :=
  let* s0 := get in
  setShift value >>
  let* conductor := find_conductor (conductors s0) (user s0) in
  let* key := buildGroupStorageKey (conductorId_of conductor (user s0))
           (ruta_of conductor "") value in
  let* existingGroupId := getItem key in
  setCurrentGroupId (or_null existingGroupId).

(** [manualFinalizarViaje]; [confirmed] is the answer of [window.confirm]. *)
Definition manualFinalizarViaje (tripId : string) (confirmed : bool) : M unit :=
  if confirmed then finalizarViaje tripId else ret tt.

(** *** Scanning and manual entry *)

(** The rest of the component's state: the [passenger] property of the
    banner held in [scanResult], the two dialogs and the cedula typed into
    the manual entry. *)
Record Page := mkPage {
  page_state : State;
  scanPassenger : option Passenger;
  showScanner : bool;
  showManualEntry : bool;
  manualCedula : string
}.

(** [setScanResult({ type, message, passenger })] *)
Definition setBanner (type : ResultType) (message : string)
    (passenger : option Passenger) (pg : Page) : Page :=
  mkPage (with_scanResult (Some (mkScanResult type message)) (page_state pg))
    passenger (showScanner pg) (showManualEntry pg) (manualCedula pg).

Definition setShowScanner (v : bool) (pg : Page) : Page :=
  mkPage (page_state pg) (scanPassenger pg) v (showManualEntry pg) (manualCedula pg).

Definition setShowManualEntry (v : bool) (pg : Page) : Page :=
  mkPage (page_state pg) (scanPassenger pg) (showScanner pg) v (manualCedula pg).

Definition setManualCedula (v : string) (pg : Page) : Page :=
  mkPage (page_state pg) (scanPassenger pg) (showScanner pg) (showManualEntry pg) v.

(** A handler of the trips called from the page.  A banner it raises
    carries no [passenger] property. *)
Definition call {A} (m : M A) (pg : Page) : Completion A * Page :=
  let s := page_state pg in
  (completion m s,
   mkPage (exec m s)
     (match scanResult (exec m (with_scanResult None s)) with
      | Some _ => None
      | None => scanPassenger pg
      end)
     (showScanner pg) (showManualEntry pg) (manualCedula pg)).

Definition msg_enter_cedula : string := "Por favor ingrese una cédula válida".
Definition msg_invalid_qr : string := "Código QR inválido o no reconocido".
Definition msg_not_found (cedula : string) : string :=
  "Pasajero con cédula " +:+ cedula +:+ " no encontrado en el sistema".
Definition msg_finalized (name : string) : string := "Viaje finalizado para " +:+ name.
Definition msg_started (name : string) : string := "Viaje iniciado para " +:+ name.

Section Entry.

(** [String.prototype.trim], and [parseQRData] of [../utils/qr] seen through
    the [cedula] of the data it returns, with [None] where it throws. *)
Variable trim : string -> string.
Variable parseQRData : string -> option string.

Definition handleManualEntry (pg : Page) : Completion unit * Page :=
  if negb (truthy (trim (manualCedula pg))) then
    (Normal tt, setBanner error msg_enter_cedula None pg)
  else
    match call (find (passengers (page_state pg))
                  (fun p => String.eqb (p_cedula p) (trim (manualCedula pg)))) pg with
    | (Throw e, pg0) => (Throw e, pg0)
    | (Normal None, pg0) =>
        (Normal tt,
         setManualCedula ""
           (setShowManualEntry false
              (setBanner error (msg_not_found (trim (manualCedula pg))) None pg0)))
    | (Normal (Some passenger), pg0) =>
        match List.find (fun t => String.eqb (trip_passengerId t) (p_id passenger))
                (activeTrips (page_state pg)) with
        | Some existingTrip =>
            match call (finalizarViaje (trip_id existingTrip)) pg0 with
            | (Throw e, pg1) => (Throw e, pg1)
            | (Normal _, pg1) =>
                (Normal tt,
                 setManualCedula ""
                   (setShowManualEntry false
                      (setBanner success (msg_finalized (p_name passenger))
                         (Some passenger) pg1)))
            end
        | None =>
            match call (iniciarViaje passenger) pg0 with
            | (Throw e, pg1) => (Throw e, pg1)
            | (Normal _, pg1) =>
                (Normal tt,
                 setManualCedula ""
                   (setShowManualEntry false
                      (setBanner success (msg_started (p_name passenger))
                         (Some passenger) pg1)))
            end
        end
    end.

(** The [catch] block of [handleQRScan]. *)
Definition invalidQR (pg : Page) : Completion unit * Page :=
  (Normal tt, setShowScanner false (setBanner error msg_invalid_qr None pg)).

Definition handleQRScan (qrData : string) (pg : Page) : Completion unit * Page :=
  match parseQRData qrData with
  | None => invalidQR pg
  | Some cedula =>
      match call (find (passengers (page_state pg))
                    (fun p => String.eqb (p_cedula p) cedula)) pg with
      | (Throw _, pg0) => invalidQR pg0
      | (Normal None, pg0) =>
          (Normal tt,
           setShowScanner false (setBanner error (msg_not_found cedula) None pg0))
      | (Normal (Some passenger), pg0) =>
          match List.find (fun t => String.eqb (trip_passengerId t) (p_id passenger))
                  (activeTrips (page_state pg)) with
          | Some existingTrip =>
              match call (finalizarViaje (trip_id existingTrip)) pg0 with
              | (Throw _, pg1) => invalidQR pg1
              | (Normal _, pg1) =>
                  (Normal tt,
                   setShowScanner false
                     (setBanner success (msg_finalized (p_name passenger))
                        (Some passenger) pg1))
              end
          | None =>
              match call (iniciarViaje passenger) pg0 with
              | (Throw _, pg1) => invalidQR pg1
              | (Normal _, pg1) =>
                  (Normal tt,
                   setShowScanner false
                     (setBanner success (msg_started (p_name passenger))
                        (Some passenger) pg1))
              end
          end
      end
  end.

End Entry.

(** *** The active trips, route by route *)

(** The names every object literal inherits from [Object.prototype]. *)
Definition Object_prototype_names : list string :=
  [ "constructor"; "__defineGetter__"; "__defineSetter__"; "hasOwnProperty";
    "__lookupGetter__"; "__lookupSetter__"; "isPrototypeOf";
    "propertyIsEnumerable"; "toString"; "valueOf"; "__proto__";
    "toLocaleString" ].

(** One turn of the [reduce] of [tripsByRoute].  Under an inherited name
    [acc[routeKey]] is not an array: it is truthy, so no bucket is made, and
    it has no [push], so the call throws. *)
Definition tripsByRoute_step (acc : Completion (gmap string (list Trip)))
    (trip : Trip) : Completion (gmap string (list Trip)) :=
  match acc with
  | Throw e => Throw e
  | Normal acc =>
      let routeKey :=
        if truthy (trip_ruta trip) then trip_ruta trip else "Ruta no especificada" in
      match acc !! routeKey with
      | Some bucket => Normal (<[routeKey := (bucket ++ [trip])%list]> acc)
      | None =>
          if bool_decide (routeKey ∈ Object_prototype_names) then Throw TypeError
          else Normal (<[routeKey := [trip]]> acc)
      end
  end.

Definition tripsByRoute (activeTrips : list Trip)
    : Completion (gmap string (list Trip)) :=
  foldl tripsByRoute_step (Normal ∅) activeTrips.

End ScanQR.

(** ** The durable store *)

Module IndexedDB.

(** The object stores of [DatabaseSchema]. *)
Inductive StoreName :=
  | users | passengers | conductors | trips | signatures | conductorCredentials.

(** A stored object as the store sees it: the value at its key path ['id'],
    the value at the key path ['cedula'] of the index (missing when the
    object has no such property), and the rest of the object. *)
Record Row := mkRow {
  row_id : string;
  row_cedula : option string;
  row_body : string
}.

(** [createIndex('cedula', 'cedula', { unique: true })] in [onupgradeneeded]. *)
Definition unique_cedula (sn : StoreName) : bool :=
  match sn with
  | users | passengers | conductors => true
  | trips | signatures | conductorCredentials => false
  end.

(** The database: one object store, keyed by id, per store name. *)
Record DB := mkDB {
  db_users : gmap string Row;
  db_passengers : gmap string Row;
  db_conductors : gmap string Row;
  db_trips : gmap string Row;
  db_signatures : gmap string Row;
  db_conductorCredentials : gmap string Row
}.

Definition objectStore (sn : StoreName) (db : DB) : gmap string Row :=
  match sn with
  | users => db_users db
  | passengers => db_passengers db
  | conductors => db_conductors db
  | trips => db_trips db
  | signatures => db_signatures db
  | conductorCredentials => db_conductorCredentials db
  end.

Definition with_objectStore (sn : StoreName) (v : gmap string Row) (db : DB) : DB :=
  match sn with
  | users =>
      mkDB v (db_passengers db) (db_conductors db) (db_trips db)
        (db_signatures db) (db_conductorCredentials db)
  | passengers =>
      mkDB (db_users db) v (db_conductors db) (db_trips db)
        (db_signatures db) (db_conductorCredentials db)
  | conductors =>
      mkDB (db_users db) (db_passengers db) v (db_trips db)
        (db_signatures db) (db_conductorCredentials db)
  | trips =>
      mkDB (db_users db) (db_passengers db) (db_conductors db) v
        (db_signatures db) (db_conductorCredentials db)
  | signatures =>
      mkDB (db_users db) (db_passengers db) (db_conductors db) (db_trips db)
        v (db_conductorCredentials db)
  | conductorCredentials =>
      mkDB (db_users db) (db_passengers db) (db_conductors db) (db_trips db)
        (db_signatures db) v
  end.

(** The error of a rejected request. *)
Inductive DOMException := ConstraintError.

Inductive Settled (A : Type) :=
  | Resolved (a : A)
  | Rejected (e : DOMException).
Arguments Resolved {A} a.
Arguments Rejected {A} e.

(** Another object, under a different primary key, already holds the index
    key of [r]. *)
Definition owned_elsewhere (r : Row) (st : gmap string Row) : bool :=
  match row_cedula r with
  | None => false
  | Some ced =>
      existsb (fun kv : string * Row =>
                 negb (String.eqb (fst kv) (row_id r)) &&
                 match row_cedula (snd kv) with
                 | Some ced' => String.eqb ced' ced
                 | None => false
                 end)
        (map_to_list st)
  end.

(** [store.put(data)] on one object store: the object replaces the one
    stored under its id, unless a unique index refuses its key. *)
Definition put (unique : bool) (r : Row) (st : gmap string Row)
    : Settled (gmap string Row) :=
  if unique && owned_elsewhere r st then Rejected ConstraintError
  else Resolved (<[row_id r := r]> st).

(** The requests of one transaction, in order.  The handlers of the service
    never cancel the error event of a request, so the first refused request
    aborts the transaction and nothing of it is kept. *)
Fixpoint put_all (unique : bool) (data : list Row) (st : gmap string Row)
    : Settled (gmap string Row) :=
  match data with
  | [] => Resolved st
  | r :: rest =>
      match put unique r st with
      | Resolved st' => put_all unique rest st'
      | Rejected e => Rejected e
      end
  end.

(** An asynchronous operation of the service: it settles, and leaves a
    database behind. *)
Definition Promise (A : Type) : Type := DB -> Settled A * DB.

Definition commit (sn : StoreName) (r : Settled (gmap string Row)) : Promise unit :=
  fun db =>
    match r with
    | Resolved st => (Resolved tt, with_objectStore sn st db)
    | Rejected e => (Rejected e, db)
    end.

Definition save (storeName : StoreName) (data : Row) : Promise unit :=
  fun db =>
    commit storeName (put (unique_cedula storeName) data (objectStore storeName db)) db.

Definition saveAll (storeName : StoreName) (data : list Row) : Promise unit :=
  fun db =>
    match data with
    | [] => (Resolved tt, db)
    | _ :: _ =>
        commit storeName
          (put_all (unique_cedula storeName) data (objectStore storeName db)) db
    end.

Definition saveUsers := saveAll users.
Definition savePassengers := saveAll passengers.
Definition saveConductors := saveAll conductors.
Definition saveTrips := saveAll trips.
Definition saveSignatures := saveAll signatures.
Definition saveConductorCredentials := saveAll conductorCredentials.

(** [await a; b]: a rejection is thrown past what follows. *)
Definition andThen (a b : Promise unit) : Promise unit :=
  fun db =>
    match a db with
    | (Resolved _, db') => b db'
    | (Rejected e, db') => (Rejected e, db')
    end.

(** [if (xs.length > 0) await op(xs)] *)
Definition whenNonEmpty (xs : list Row) (op : list Row -> Promise unit) : Promise unit :=
  match xs with
  | [] => fun db => (Resolved tt, db)
  | _ :: _ => op xs
  end.

(** The part of [window.localStorage] the migration reads and writes: the
    marker under ['transport_migration_completed'] and, per store, what
    [getFromLocalStorage] parses under the legacy key (the empty array when
    the key is missing or unreadable). *)
Record LocalStorage := mkLocalStorage {
  migration_completed : option string;
  legacy : StoreName -> list Row
}.

Definition migrateFromLocalStorage (ls : LocalStorage) (db : DB) : LocalStorage * DB :=
  if truthy (default "" (migration_completed ls)) then (ls, db)
  else
    let users_ := legacy ls users in
    let passengers_ := legacy ls passengers in
    let conductors_ := legacy ls conductors in
    let trips_ := legacy ls trips in
    let signatures_ := legacy ls signatures in
    let credentials_ := legacy ls conductorCredentials in
    match
      andThen (whenNonEmpty users_ saveUsers)
     (andThen (whenNonEmpty passengers_ savePassengers)
     (andThen (whenNonEmpty conductors_ saveConductors)
     (andThen (whenNonEmpty trips_ saveTrips)
     (andThen (whenNonEmpty signatures_ saveSignatures)
              (whenNonEmpty credentials_ saveConductorCredentials))))) db
    with
    | (Resolved _, db') => (mkLocalStorage (Some "true") (legacy ls), db')
    | (Rejected _, db') => (ls, db')
    end.

(** *** Reading, deleting and clearing *)

(** The order in which an object store keeps its objects: ascending by
    key, the ids compared as strings. *)
Definition key_le (a b : string * Row) : Prop := String.leb (fst a) (fst b) = true.

#[global] Instance key_le_dec (a b : string * Row) : Decision (key_le a b) :=
  decide (String.leb (fst a) (fst b) = true).

(** [store.getAll()] *)
Definition getAll (storeName : StoreName) : Promise (list Row) :=
  fun db =>
    (Resolved (map snd (merge_sort key_le (map_to_list (objectStore storeName db)))),
     db).

(** [store.get(id)], [request.result || null] *)
Definition getById (storeName : StoreName) (id : string) : Promise (option Row) :=
  fun db => (Resolved (objectStore storeName db !! id), db).

(** [store.delete(id)] of the method [delete]. *)
Definition delete_ (storeName : StoreName) (id : string) : Promise unit :=
  fun db =>
    (Resolved tt,
     with_objectStore storeName (base.delete id (objectStore storeName db)) db).

Definition getUsers := getAll users.
Definition getPassengers := getAll passengers.
Definition getConductors := getAll conductors.
Definition getTrips := getAll trips.
Definition getSignatures := getAll signatures.
Definition getConductorCredentials := getAll conductorCredentials.

(** [store.clear()] *)
Definition clear (storeName : StoreName) : Promise unit :=
  fun db => (Resolved tt, with_objectStore storeName ∅ db).

Definition clearPassengers : Promise unit := clear passengers.

(** [for (const storeName of storeNames) { ... store.clear() ... }] *)
Definition clearAll : Promise unit :=
  andThen (clear users)
 (andThen (clear passengers)
 (andThen (clear conductors)
 (andThen (clear trips)
 (andThen (clear signatures)
          (clear conductorCredentials))))).

End IndexedDB.

(** ** The storage facade *)

Module Storage.
Import IndexedDB.

Definition USERS : string := "transport_users".
Definition PASSENGERS : string := "transport_passengers".
Definition CONDUCTORS : string := "transport_conductors".
Definition TRIPS : string := "transport_trips".
Definition CURRENT_USER : string := "transport_current_user".
Definition SIGNATURES : string := "transport_signatures".
Definition CONDUCTOR_CREDENTIALS : string := "transport_conductor_credentials".

(** [Object.values(STORAGE_KEYS)] *)
Definition STORAGE_KEYS : list string :=
  [USERS; PASSENGERS; CONDUCTORS; TRIPS; CURRENT_USER; SIGNATURES;
   CONDUCTOR_CREDENTIALS].

(** [clearAll], on [window.localStorage] as a map from keys to values. *)
Definition clearAll (localStorage : gmap string string) : gmap string string :=
  foldl (fun ls key => delete key ls) localStorage STORAGE_KEYS.

(** What an [async] function of the facade settles with: a value, the
    error of a request passed on, or an [Error] of the facade's own. *)
Inductive Reason :=
  | DOM (e : DOMException)
  | Err (message : string).

Inductive Outcome (A : Type) :=
  | Fulfilled (a : A)
  | Failed (r : Reason).
Arguments Fulfilled {A} a.
Arguments Failed {A} r.

Definition Async (A : Type) : Type := DB -> Outcome A * DB.

(** [return indexedDBService.getX()] *)
Definition passOn {A} (p : Promise A) : Async A :=
  fun db =>
    match p db with
    | (Resolved a, db') => (Fulfilled a, db')
    | (Rejected e, db') => (Failed (DOM e), db')
    end.

(** [try { await p } catch (error) { throw new Error(message) }] *)
Definition orError (message : string) (p : Promise unit) : Async unit :=
  fun db =>
    match p db with
    | (Resolved _, db') => (Fulfilled tt, db')
    | (Rejected _, db') => (Failed (Err message), db')
    end.

Definition msg_save_passengers : string :=
  "No se pudieron guardar los pasajeros. El almacenamiento está lleno o hay un problema con la base de datos.".
Definition msg_save_conductors : string :=
  "No se pudieron guardar los conductores. El almacenamiento está lleno o hay un problema con la base de datos.".
Definition msg_save_credentials : string :=
  "No se pudieron guardar las credenciales del conductor. El almacenamiento está lleno o hay un problema con la base de datos.".

Definition getPassengers : Async (list Row) := passOn IndexedDB.getPassengers.
Definition savePassengers (passengers_ : list Row) : Async unit :=
  orError msg_save_passengers (IndexedDB.savePassengers passengers_).

Definition getConductors : Async (list Row) := passOn IndexedDB.getConductors.
Definition saveConductors (conductors_ : list Row) : Async unit :=
  orError msg_save_conductors (IndexedDB.saveConductors conductors_).

Definition getConductorCredentials : Async (list Row) :=
  passOn IndexedDB.getConductorCredentials.
Definition saveConductorCredentials (credentials : list Row) : Async unit :=
  orError msg_save_credentials (IndexedDB.saveConductorCredentials credentials).

(** The users live in localStorage, under the key the migration reads, with
    the durable store as a second copy. *)
Definition storeName_eqb (a b : StoreName) : bool :=
  match a, b with
  | users, users | passengers, passengers | conductors, conductors
  | trips, trips | signatures, signatures
  | conductorCredentials, conductorCredentials => true
  | _, _ => false
  end.

(** [localStorage.setItem(key, JSON.stringify(rows))] for the key of a
    collection. *)
Definition setCollection (sn : StoreName) (rows : list Row) (ls : LocalStorage)
    : LocalStorage :=
  mkLocalStorage (migration_completed ls)
    (fun sn' => if storeName_eqb sn' sn then rows else legacy ls sn').

(** [saveUsers]: localStorage first, then the durable store, whose failure
    is logged and dropped. *)
Definition saveUsers (users_ : list Row) (w : LocalStorage * DB)
    : Outcome unit * (LocalStorage * DB) :=
  let ls' := setCollection users users_ (fst w) in
  match IndexedDB.saveUsers users_ (snd w) with
  | (Resolved _, db') => (Fulfilled tt, (ls', db'))
  | (Rejected _, db') => (Fulfilled tt, (ls', db'))
  end.

(** [getUsers]: the array it returns is what localStorage holds at the
    call, the key holding what [saveUsers] or the legacy application wrote;
    the world it leaves is the one after the promise it started has
    settled, with localStorage overwritten by the users of the durable
    store when there are any. *)
Definition getUsers (w : LocalStorage * DB) : list Row * (LocalStorage * DB) :=
  let data := legacy (fst w) users in
  match IndexedDB.getUsers (snd w) with
  | (Resolved (u :: us), db') => (data, (setCollection users (u :: us) (fst w), db'))
  | (Resolved [], db') => (data, (fst w, db'))
  | (Rejected _, db') => (data, (fst w, db'))
  end.

End Storage.

(** ** The passenger import *)

Module PassengerImport.

(** A cell of a sheet row, as [XLSX.utils.sheet_to_json] hands it over: text
    or an (integral) number. *)
Inductive Cell :=
  | CStr (s : string)
  | CNum (z : Z).

Definition cell_truthy (c : Cell) : bool :=
  match c with
  | CStr s => truthy s
  | CNum z => negb (z =? 0)%Z
  end.

(** [String(v)] *)
Definition cell_string (c : Cell) : string :=
  match c with
  | CStr s => s
  | CNum z => pretty z
  end.

(** [row[k1] || row[k2] || ...]: the first truthy operand, if any. *)
Fixpoint first_truthy (row : gmap string Cell) (keys : list string) : option Cell :=
  match keys with
  | [] => None
  | k :: rest =>
      match row !! k with
      | Some c => if cell_truthy c then Some c else first_truthy row rest
      | None => first_truthy row rest
      end
  end.

Record QRData := mkQRData {
  qr_cedula : string;
  qr_name : Cell;
  qr_gerencia : Cell;
  qr_timestamp : string
}.

(** The object pushed onto [newPassengers]. *)
Record NewPassenger := mkNewPassenger {
  np_id : string;
  np_name : Cell;
  np_cedula : string;
  np_gerencia : Cell;
  np_qrCode : string;
  np_createdAt : string
}.

(** What the loop carries from one row to the next. *)
Record Loop := mkLoop {
  existingCedulas : gset string;
  newPassengers : list NewPassenger;
  clockReads : nat;
  uuidDraws : nat
}.

Section Process.

(** [String.prototype.trim], the QR generator of [./qr] (it may reject),
    the successive readings of [new Date().toISOString()] and the
    successive results of [uuidv4()]. *)
Variable trim : string -> string.
Variable generateQRCode : QRData -> option string.
Variable isoAt : nat -> string.
Variable uuidAt : nat -> string.

Definition name_of (row : gmap string Cell) : Cell :=
  default (CStr "")
    (first_truthy row
       ["Nombres y Apellidos"; "Nombre"; "nombre"; "NOMBRE"; "Name"; "name"]).

Definition cedula_of (row : gmap string Cell) : string :=
  match first_truthy row ["Cedula"; "cedula"; "CEDULA"; "ID"; "id"] with
  | Some cedulaValue => trim (cell_string cedulaValue)
  | None => ""
  end.

Definition gerencia_of (row : gmap string Cell) : Cell :=
  default (CStr "")
    (first_truthy row
       ["Gerencia"; "gerencia"; "GERENCIA"; "Department"; "department"]).

(** One turn of the [for (const row of data)] loop. *)
Definition process_row (acc : Loop) (row : gmap string Cell) : Loop :=
  let name := name_of row in
  let cedula := cedula_of row in
  let gerencia := gerencia_of row in
  if negb (cell_truthy name) || negb (truthy cedula) then acc
  else if bool_decide (cedula ∈ existingCedulas acc) then acc
  else
    let qrData := mkQRData cedula name gerencia (isoAt (clockReads acc)) in
    match generateQRCode qrData with
    | Some qrCode =>
        let newPassenger :=
          mkNewPassenger (uuidAt (uuidDraws acc)) name cedula gerencia qrCode
            (isoAt (S (clockReads acc))) in
        mkLoop ({[cedula]} ∪ existingCedulas acc)
          (newPassengers acc ++ [newPassenger])
          (S (S (clockReads acc))) (S (uuidDraws acc))
    | None =>
        mkLoop (existingCedulas acc) (newPassengers acc)
          (S (clockReads acc)) (uuidDraws acc)
    end.

Definition processPassengersFromImport (existingPassengers : list Passenger)
    (data : list (gmap string Cell)) : list NewPassenger :=
  let existingCedulas := list_to_set (map p_cedula existingPassengers) in
  newPassengers (foldl process_row (mkLoop existingCedulas [] 0 0) data).

(** The object the passengers store keeps for a new passenger: its id, its
    cedula, and the rest of it. *)
Variable rest_of : NewPassenger -> string.

Definition stored_as (p : NewPassenger) : IndexedDB.Row :=
  IndexedDB.mkRow (np_id p) (Some (np_cedula p)) (rest_of p).

Definition msg_save_imported : string :=
  "No se pudieron guardar los pasajeros importados. El almacenamiento está lleno o hay un problema con la base de datos.".

Definition saveImportedPassengers (newPassengers : list NewPassenger)
    : Storage.Async nat :=
  fun db =>
    match newPassengers with
    | [] => (Storage.Fulfilled 0, db)
    | _ :: _ =>
        match Storage.savePassengers (map stored_as newPassengers) db with
        | (Storage.Fulfilled _, db') =>
            (Storage.Fulfilled (length newPassengers), db')
        | (Storage.Failed _, db') =>
            (Storage.Failed (Storage.Err msg_save_imported), db')
        end
    end.

End Process.

End PassengerImport.

(** ** The pages that keep the collections *)

(** The passengers page. *)
Module Passengers.
Import IndexedDB.

Record FormData := mkFormData {
  fd_name : string;
  fd_cedula : string;
  fd_gerencia : string
}.

Record Page := mkPage {
  pg_passengers : list Row;
  formData : FormData;
  editingPassenger : option Row;
  showModal : bool;
  alerts : list string
}.

Definition setPassengers (v : list Row) (pg : Page) : Page :=
  mkPage v (formData pg) (editingPassenger pg) (showModal pg) (alerts pg).
Definition alert (message : string) (pg : Page) : Page :=
  mkPage (pg_passengers pg) (formData pg) (editingPassenger pg) (showModal pg)
    (alerts pg ++ [message]).
Definition resetForm (pg : Page) : Page :=
  mkPage (pg_passengers pg) (mkFormData "" "" "") None false (alerts pg).

Definition msg_all_deleted : string := "Todos los pasajeros han sido eliminados.".
Definition msg_delete_error : string := "Hubo un error al eliminar los pasajeros.".
Definition msg_cedula_exists : string := "Ya existe un pasajero con esta cédula".

Definition loadPassengers (w : Page * DB) : Page * DB :=
  match Storage.getPassengers (snd w) with
  | (Storage.Fulfilled data, db') => (setPassengers data (fst w), db')
  | (Storage.Failed _, db') => (fst w, db')
  end.

(** [handleDelete]: the promise of [storage.savePassengers] is left to
    settle on its own. *)
Definition handleDelete (id : string) (confirmed : bool) (w : Page * DB) : Page * DB :=
  if confirmed then
    let updatedPassengers :=
      List.filter (fun p => negb (String.eqb (row_id p) id)) (pg_passengers (fst w)) in
    (setPassengers updatedPassengers (fst w),
     snd (Storage.savePassengers updatedPassengers (snd w)))
  else w.

Definition handleClearPassengers (confirmed : bool) (w : Page * DB) : Page * DB :=
  if confirmed then
    match Storage.savePassengers [] (snd w) with
    | (Storage.Fulfilled _, db') =>
        let w' := loadPassengers (fst w, db') in
        (alert msg_all_deleted (fst w'), snd w')
    | (Storage.Failed _, db') => (alert msg_delete_error (fst w), db')
    end
  else w.

Section Submit.

(** [generateQRCode] of [../utils/qr], applied to the cedula, the name, the
    gerencia and the timestamp of its argument; and how the rest of a
    stored passenger is made: of a new one, from its name, gerencia, QR code
    and [createdAt], and of an edited one, from the form and the rest it
    had. *)
Variable generateQRCode : string -> string -> string -> string -> Storage.Outcome string.
Variable new_rest : string -> string -> string -> string -> string.
Variable edited_rest : FormData -> string -> string.

(** [{ ...p, ...formData }] *)
Definition withForm (fd : FormData) (p : Row) : Row :=
  mkRow (row_id p) (Some (fd_cedula fd)) (edited_rest fd (row_body p)).

(** [handleSubmit]; [now] gives the readings of the clock the handler takes,
    in their order.  The promise of [storage.savePassengers] is left to
    settle on its own. *)
Definition handleSubmit (now : nat -> ScanQR.Instant) (w : Page * DB)
    : Storage.Outcome unit * (Page * DB) :=
  let pg := fst w in
  let fd := formData pg in
  match List.find
          (fun p => opt_eqb (row_cedula p) (fd_cedula fd) &&
                    match editingPassenger pg with
                    | None => true
                    | Some e => negb (String.eqb (row_id p) (row_id e))
                    end)
          (pg_passengers pg) with
  | Some existingPassenger =>
      (Storage.Fulfilled tt, (alert msg_cedula_exists pg, snd w))
  | None =>
      match editingPassenger pg with
      | Some e =>
          let updatedPassengers :=
            map (fun p => if String.eqb (row_id p) (row_id e) then withForm fd p else p)
              (pg_passengers pg) in
          (Storage.Fulfilled tt,
           (resetForm (setPassengers updatedPassengers pg),
            snd (Storage.savePassengers updatedPassengers (snd w))))
      | None =>
          match generateQRCode (fd_cedula fd) (fd_name fd) (fd_gerencia fd)
                  (ScanQR.isoString (now 0)) with
          | Storage.Failed r => (Storage.Failed r, w)
          | Storage.Fulfilled qrCode =>
              let newPassenger :=
                mkRow (pretty (ScanQR.epochMs (now 1))) (Some (fd_cedula fd))
                  (new_rest (fd_name fd) (fd_gerencia fd) qrCode
                     (ScanQR.isoString (now 2))) in
              let updatedPassengers := (pg_passengers pg ++ [newPassenger])%list in
              (Storage.Fulfilled tt,
               (resetForm (setPassengers updatedPassengers pg),
                snd (Storage.savePassengers updatedPassengers (snd w))))
          end
      end
  end.

End Submit.

End Passengers.

(** The conductors page. *)
Module Conductors.
Import IndexedDB.

(** [handleDelete]: the list of the page is set once the save is through. *)
Definition handleDelete (id : string) (confirmed : bool) (w : list Row * DB)
    : Storage.Outcome unit * (list Row * DB) :=
  if confirmed then
    let updatedConductors :=
      List.filter (fun c => negb (String.eqb (row_id c) id)) (fst w) in
    match Storage.saveConductors updatedConductors (snd w) with
    | (Storage.Fulfilled _, db') => (Storage.Fulfilled tt, (updatedConductors, db'))
    | (Storage.Failed r, db') => (Storage.Failed r, (fst w, db'))
    end
  else (Storage.Fulfilled tt, w).

End Conductors.

(** The users page. *)
Module Users.
Import IndexedDB.

(** [handleDelete], on the list of the page, localStorage and the durable
    store. *)
Definition handleDelete (id : string) (confirmed : bool)
    (w : list Row * (LocalStorage * DB)) : list Row * (LocalStorage * DB) :=
  if confirmed then
    let updatedUsers :=
      List.filter (fun u => negb (String.eqb (row_id u) id)) (fst w) in
    (updatedUsers, snd (Storage.saveUsers updatedUsers (snd w)))
  else w.

End Users.

(** * Properties *)

Import ScanQR.

(** ** Vocabulary for the scanning page *)

(** What the [map] of [finalizarViaje] and [finalizarRuta] computes: the
    trips selected by [P] are finalized, each one stamped with the next
    reading of the clock [clk], starting at reading [k]. *)
Fixpoint stamp (P : Trip -> bool) (clk : nat -> Instant) (k : nat)
    (l : list Trip) : list Trip :=
  match l with
  | [] => []
  | t :: rest =>
      if P t then finalized_at (isoString (clk k)) t :: stamp P clk (S k) rest
      else t :: stamp P clk k rest
  end.

(** The banner a handler raises when it starts from a cleared one. *)
Definition reports {A} (m : M A) (s : State) : option ScanResult :=
  scanResult (exec m (with_scanResult None s)).

(** The handler raises an error banner. *)
Definition fails {A} (m : M A) (s : State) : Prop :=
  exists msg, reports m s = Some (mkScanResult error msg).

(** The handler raises the capacity banner. *)
Definition capacity_exceeded {A} (m : M A) (s : State) : Prop :=
  reports m s = Some (mkScanResult error msg_capacity).

(** The handler returns, and raises no banner. *)
Definition succeeds (m : M unit) (s : State) : Prop :=
  completion m s = Normal tt /\ reports m s = None.

(** The page lists as active the stored trips that are under way. *)
Definition in_step (s : State) : Prop :=
  activeTrips s = List.filter is_en_curso (ls_trips s).

(** The conductor, the conductor id and the route a start call works with,
    the page holding its conductors as an array. *)
Definition current_conductor (s : State) : option Conductor :=
  match conductors s with
  | ArrayOf cs =>
      List.find (fun c => match user s with
                          | Some usr => String.eqb (c_cedula c) (u_cedula usr)
                          | None => false
                          end) cs
  | PromiseOf _ => None
  end.
Definition current_conductorId (s : State) : string :=
  conductorId_of (current_conductor s) (user s).
Definition current_ruta (s : State) : string :=
  ruta_of (current_conductor s) "Ruta no especificada".

(** The value a handler returns, [dflt] if it throws. *)
Definition value {A} (dflt : A) (m : M A) (s : State) : A :=
  match completion m s with
  | Normal a => a
  | Throw _ => dflt
  end.

(** The group id [ensureGroup] returns. *)
Definition group_of (conductorId ruta : string) (sh : option Shift) (s : State)
    : string :=
  value "" (ensureGroup conductorId ruta sh) s.

(** The group a start call is about to use. *)
Definition derived_groupId (s : State) : string :=
  group_of (current_conductorId s) (current_ruta s) (shift s) s.

(** Trips of a group: all of them, and the ones still under way. *)
Definition group_trips (g : string) (l : list Trip) : list Trip :=
  List.filter (fun t => opt_eqb (trip_groupId t) g) l.
Definition active_group_trips (g : string) (l : list Trip) : list Trip :=
  List.filter is_en_curso (group_trips g l).

(** The user's actions on the page. *)
Inductive Action :=
  | Start (passenger : Passenger)
  | FinalizeOne (tripId : string)
  | FinalizeRoute (ruta : string) (confirmed : bool)
  | SelectShift (value : option Shift).

Definition perform (a : Action) : M unit :=
  match a with
  | Start p => iniciarViaje p
  | FinalizeOne tripId => finalizarViaje tripId
  | FinalizeRoute ruta confirmed => finalizarRuta ruta confirmed
  | SelectShift value => selectShift value
  end.

(** One action after the other, whether or not a handler threw. *)
Fixpoint run (acts : list Action) (s : State) : State :=
  match acts with
  | [] => s
  | a :: rest => run rest (exec (perform a) s)
  end.

(** The action leaves every group binding in place: anything but a
    confirmed [finalizarRuta]. *)
Definition keeps_bindings (a : Action) : bool :=
  match a with
  | FinalizeRoute _ true => false
  | _ => true
  end.

(** A trip with its end time blanked: what two trips share when they differ
    in the end time only. *)
Definition erase_endTime (t : Trip) : Trip :=
  {| trip_id := trip_id t;
     trip_groupId := trip_groupId t;
     trip_shift := trip_shift t;
     trip_passengerId := trip_passengerId t;
     trip_passengerName := trip_passengerName t;
     trip_passengerCedula := trip_passengerCedula t;
     trip_conductorId := trip_conductorId t;
     trip_conductorName := trip_conductorName t;
     trip_ruta := trip_ruta t;
     trip_startTime := trip_startTime t;
     trip_endTime := None;
     trip_status := trip_status t;
     trip_createdAt := trip_createdAt t |}.

(** The trip a start call creates for [passenger] in group [g], its three
    clock readings starting at reading [k]. *)
Definition new_trip (s : State) (sh : Shift) (g : string) (k : nat)
    (passenger : Passenger) : Trip :=
  {| trip_id := pretty (epochMs (clock s k));
     trip_groupId := Some g;
     trip_shift := Some sh;
     trip_passengerId := p_id passenger;
     trip_passengerName := p_name passenger;
     trip_passengerCedula := p_cedula passenger;
     trip_conductorId := current_conductorId s;
     trip_conductorName := conductorName_of (current_conductor s) (user s);
     trip_ruta := current_ruta s;
     trip_startTime := isoString (clock s (S k));
     trip_endTime := None;
     trip_status := en_curso;
     trip_createdAt := isoString (clock s (S (S k))) |}.

(** A later version of a stored trip: the same id, and finalized if the
    earlier one was. *)
Definition later_version (t t' : Trip) : Prop :=
  trip_id t' = trip_id t /\
  (trip_status t = finalizado -> trip_status t' = finalizado).

(** Every reading of the clock falls on the calendar day [d]. *)
Definition same_day (s : State) (d : string) : Prop :=
  forall k, day_of (isoString (clock s k)) = d.

(** The trips [finalizarRuta] selects: those whose id is the id of a trip
    the page shows as active on the route. *)
Definition on_route_in_view (ruta : string) (s : State) (trip : Trip) : bool :=
  existsb (fun t => String.eqb (trip_id t) (trip_id trip))
    (List.filter (fun t => String.eqb (trip_ruta t) ruta) (activeTrips s)).

(** The localStorage key [finalizarRuta] removes: built from the current
    conductor, the route, the shift now selected and the day of the reading
    taken after the trips were stamped. *)
Definition cleared_key (ruta : string) (s : State) : string :=
  groupStorageKey (current_conductorId s) ruta (shift s)
    (day_of (isoString (clock s
       (tick s + length (List.filter (on_route_in_view ruta s) (ls_trips s)))))).

(** The text between the underscores that stands for the shift in a group
    key. *)
Definition shift_segment (sh : option Shift) : string :=
  match sh with
  | Some x => shift_string x
  | None => "sin_turno"
  end.

(** The string has no underscore in it. *)
Fixpoint no_underscore (s : string) : bool :=
  match s with
  | EmptyString => true
  | String c rest => negb (Ascii.eqb c "_") && no_underscore rest
  end.

(** A group id as [iniciarViaje] mints it at [Date.now() = now]. *)
Definition minted (conductorId : string) (now : N) : string :=
  conductorId +:+ "-" +:+ pretty now.

(** *** Sample data *)

Definition pad2 (n : nat) : string :=
  if (n <? 10)%nat then "0" +:+ pretty n else pretty n.

(** A clock that starts at ten in the morning of 4 March 2025 (UTC) and
    advances by one second per reading. *)
Definition sample_clock (n : nat) : Instant :=
  mkInstant (1741082400000 + 1000 * N.of_nat n)
    ("2025-03-04T10:" +:+ pad2 (n / 60) +:+ ":" +:+ pad2 (n mod 60) +:+ ".000Z").

(** A clock that stands still, as under a test's fake timers. *)
Definition frozen_clock (_ : nat) : Instant :=
  mkInstant 1741082400000 "2025-03-04T10:00:00.000Z".

Definition sample_user : User :=
  mkUser "u1" "Ana" "V-100" conductor_role "2025-01-01T00:00:00.000Z".

Definition sample_conductor : Conductor :=
  mkConductor "c1" "Ana" "V-100" "AB123" None (Some "R") "2025-01-01T00:00:00.000Z".

Definition sample_passenger : Passenger :=
  mkPassenger "p1" "Luis" "12345678" "Finanzas" "qr" "2025-01-01T00:00:00.000Z".

(** The route, the group and the localStorage key of the sample session:
    the page as first rendered holds no conductors, so a start call falls
    back on the user's id and on the default route. *)
Definition sample_route : string := "Ruta no especificada".
Definition sample_group : string := "u1-1741078700000".
Definition sample_key : string :=
  groupStorageKey "u1" sample_route (Some manana) "2025-03-04".

(** A trip of the sample session. *)
Definition sample_trip (tid : string) (st : Status) (endTime : option string) : Trip :=
  mkTrip tid (Some sample_group) (Some manana) "p1" "Luis" "12345678" "u1" "Ana"
    sample_route "2025-03-04T09:00:00.000Z" endTime st "2025-03-04T09:00:00.000Z".

(** The page of the sample user as first rendered (its passengers and
    conductors are the empty arrays of [useState]), morning shift selected,
    showing the stored [trips], with [items] in localStorage. *)
Definition sample_state (clk : nat -> Instant) (trips : list Trip)
    (items : gmap string string) : State :=
  mkState trips items [sample_passenger] [sample_conductor] (Some sample_user)
    (List.filter is_en_curso trips) (ArrayOf []) (ArrayOf [])
    None (Some manana) None clk 0.

Definition state_empty : State := sample_state sample_clock [] ∅.

(** One trip, finalized half an hour before the sample clock starts. *)
Definition finalized_sample : Trip :=
  sample_trip "1741078800000" finalizado (Some "2025-03-04T09:30:00.000Z").

Definition state_one_finalized : State :=
  sample_state sample_clock [finalized_sample] {[ sample_key := sample_group ]}.

(** Eighteen trips of the sample group, all finalized. *)
Definition eighteen_finalized : list Trip :=
  map (fun n => sample_trip (pretty (1741078800000 + 1000 * N.of_nat n)%N)
                  finalizado (Some "2025-03-04T09:30:00.000Z"))
    (seq 0 18).

Definition state_18_finalized : State :=
  sample_state sample_clock eighteen_finalized {[ sample_key := sample_group ]}.

(** One trip of the sample group under way. *)
Definition active_sample : Trip := sample_trip "1741078800000" en_curso None.

(** The sample session with one trip under way, its group minted at the
    instant at which the frozen clock stands. *)
Definition state_frozen : State :=
  sample_state frozen_clock
    [mkTrip "1741082400000" (Some "u1-1741082400000") (Some manana) "p1" "Luis"
       "12345678" "u1" "Ana" sample_route "2025-03-04T10:00:00.000Z" None en_curso
       "2025-03-04T10:00:00.000Z"]
    {[ sample_key := "u1-1741082400000" ]}.

(** The sample session with one trip under way, under the sample clock;
    and the same page with the night shift selected. *)
Definition state_one_active : State :=
  sample_state sample_clock [active_sample] {[ sample_key := sample_group ]}.

Definition state_night_selected : State :=
  with_shift (Some noche) state_one_active.

(** Two trips under way that share an id, one on the sample route and one
    on route ["S"]. *)
Definition state_shared_id : State :=
  sample_state sample_clock
    [ active_sample;
      mkTrip "1741078800000" (Some "c2-1741078700000") (Some manana) "p2" "Eva"
        "87654321" "c2" "Luz" "S" "2025-03-04T09:00:00.000Z" None en_curso
        "2025-03-04T09:00:00.000Z" ] ∅.

(** The sample page after [loadData] ran once: it now holds promises where
    it expects its passengers and conductors. *)
Definition state_reloaded : State := exec loadData state_one_active.

(** ** Vocabulary for the durable store *)

Section DurableStoreVocabulary.
Import IndexedDB.

(** The object store after every object of [data] was put, in order, with
    no index in the way. *)
Definition put_each (data : list Row) (st : gmap string Row) : gmap string Row :=
  foldl (fun m r => <[row_id r := r]> m) st data.

(** The requests of [saveAll] for a store's legacy collection all succeed on
    the object store [st]. *)
Definition saves_ok (ls : LocalStorage) (sn : StoreName) (st : gmap string Row) : Prop :=
  exists st', put_all (unique_cedula sn) (legacy ls sn) st = Resolved st'.

(** Saving the legacy collection again, if it succeeds, changes nothing. *)
Definition resave_neutral (ls : LocalStorage) (sn : StoreName)
    (st : gmap string Row) : Prop :=
  forall st', put_all (unique_cedula sn) (legacy ls sn) st = Resolved st' -> st' = st.

(** The stores in the order in which the migration saves them. *)
Definition migration_order : list StoreName :=
  [users; passengers; conductors; trips; signatures; conductorCredentials].

(** The saves of a migration, one store after the other. *)
Fixpoint save_in_order (ls : LocalStorage) (sns : list StoreName) : Promise unit :=
  match sns with
  | [] => fun db => (Resolved tt, db)
  | sn :: rest => andThen (saveAll sn (legacy ls sn)) (save_in_order ls rest)
  end.

(** A save of the sequence is bound to be refused, and every save before it
    changes nothing. *)
Fixpoint stuck (ls : LocalStorage) (sns : list StoreName) (db : DB) : Prop :=
  match sns with
  | [] => False
  | sn :: rest =>
      (exists e, put_all (unique_cedula sn) (legacy ls sn) (objectStore sn db) = Rejected e) \/
      (resave_neutral ls sn (objectStore sn db) /\ stuck ls rest db)
  end.

(** The marker of a completed migration is set. *)
Definition migrated (ls : LocalStorage) : bool :=
  truthy (default "" (migration_completed ls)).

(** Sample rows: two passengers with the same cedula under different ids,
    and a third one with a cedula of its own. *)
Definition row_a : Row := mkRow "p1" (Some "12345678") "Luis".
Definition row_b : Row := mkRow "p2" (Some "12345678") "Eva".
Definition row_c : Row := mkRow "p3" (Some "87654321") "Ana".

Definition empty_db : DB := mkDB ∅ ∅ ∅ ∅ ∅ ∅.

Definition db_with_a : DB := with_objectStore passengers {[ "p1" := row_a ]} empty_db.

(** Legacy data: one user, and two passengers that share a cedula. *)
Definition legacy_conflict : LocalStorage :=
  mkLocalStorage None
    (fun sn => match sn with
               | users => [mkRow "1" (Some "12345678") "Administrador"]
               | passengers => [row_a; row_b]
               | _ => []
               end).

(** Legacy data that migrates cleanly. *)
Definition legacy_clean : LocalStorage :=
  mkLocalStorage None
    (fun sn => match sn with
               | users => [mkRow "1" (Some "12345678") "Administrador"]
               | passengers => [row_a; row_c]
               | _ => []
               end).

End DurableStoreVocabulary.

(** ** Vocabulary for the passenger import *)

Section ImportVocabulary.
Import PassengerImport.

(** The row lacks a name or a cedula. *)
Definition lacking (trim : string -> string) (row : gmap string Cell) : Prop :=
  cell_truthy (name_of row) = false \/ truthy (cedula_of trim row) = false.

(** What the loop keeps true: the cedulas collected so far are pairwise
    different, were not among the stored ones ([stored]), and are all
    recorded in [existingCedulas], together with the stored ones. *)
Definition import_invariant (stored : gset string) (acc : Loop) : Prop :=
  NoDup (map np_cedula (newPassengers acc)) /\
  (forall p, p ∈ newPassengers acc ->
     np_cedula p ∈ existingCedulas acc /\ (np_cedula p ∉ stored) /\
     cell_truthy (np_name p) = true /\ truthy (np_cedula p) = true) /\
  stored ⊆ existingCedulas acc.

(** A [trim] for the sample rows: it drops the blanks at both ends. *)
Fixpoint drop_blanks (s : string) : string :=
  match s with
  | String " " rest => drop_blanks rest
  | _ => s
  end.

Definition sample_trim (s : string) : string :=
  String.rev (drop_blanks (String.rev (drop_blanks s))).

(** A QR generator for the sample rows: it rejects texts as cedulas that
    start with a ["#"]. *)
Definition sample_qr (d : QRData) : option string :=
  match qr_cedula d with
  | String "#" _ => None
  | ced => Some ("QR:" +:+ ced)
  end.

Definition sample_iso (n : nat) : string := isoString (sample_clock n).
Definition sample_uuid (n : nat) : string := "uuid-" +:+ pretty n.

(** A sheet: a new passenger, a passenger already stored, a row without a
    name, the new passenger once more, and a numeric cedula. *)
Definition sample_rows : list (gmap string Cell) :=
  [ {[ "Nombre" := (CStr "Eva"); "Cedula" := (CStr " 300 ") ]};
    {[ "Nombre" := (CStr "Luis"); "Cedula" := (CStr "12345678") ]};
    {[ "Cedula" := (CStr "400") ]};
    {[ "name" := (CStr "Eva bis"); "ID" := (CStr "300") ]};
    {[ "NOMBRE" := (CStr "Ana"); "cedula" := (CNum 500); "Gerencia" := (CStr "Ventas") ]} ].

End ImportVocabulary.


(** ** Vocabulary for the further properties of the durable store *)

Section StoreVocabulary.
Import IndexedDB.

(** Every object sits under its own id, as [put] leaves it. *)
Definition keyed (st : gmap string Row) : Prop :=
  forall k r, st !! k = Some r -> row_id r = k.

(** The last object of [data] with the id [k]. *)
Definition last_with_id (k : string) (data : list Row) : option Row :=
  last (List.filter (fun r => String.eqb (row_id r) k) data).

(** The cedulas of [data] are pairwise different, and a stored object that
    holds one of them sits under the id of the object of [data] that
    carries it. *)
Definition cedulas_free (data : list Row) (st : gmap string Row) : Prop :=
  NoDup (omap row_cedula data) /\
  forall r k r' ced,
    r ∈ data -> st !! k = Some r' ->
    row_cedula r' = Some ced -> row_cedula r = Some ced -> k = row_id r.

(** The value a settled request carries. *)
Definition settled_value {A} (x : Settled A * DB) : option A :=
  match fst x with
  | Resolved a => Some a
  | Rejected _ => None
  end.

(** Every store of the database keeps its objects under their own ids. *)
Definition keyed_db (db : DB) : Prop := forall sn, keyed (objectStore sn db).

End StoreVocabulary.

(** ** Vocabulary for the facade and the pages *)

Section FacadeVocabulary.
Import IndexedDB.

(** The stored passengers are among those the import was given: every
    cedula a stored object holds is the cedula of one of them. *)
Definition read_from (existingPassengers : list Passenger) (db : DB) : Prop :=
  forall k r ced,
    objectStore passengers db !! k = Some r -> row_cedula r = Some ced ->
    ced ∈ map p_cedula existingPassengers.

(** A world for the samples: localStorage with the sample user, the durable
    store with the same user. *)
Definition row_u : Row := mkRow "u1" (Some "V-1") "Ana".
Definition row_v : Row := mkRow "u2" (Some "V-2") "Eva".

Definition sample_ls : LocalStorage :=
  mkLocalStorage (Some "true")
    (fun sn => match sn with users => [row_u; row_v] | _ => [] end).

Definition db_with_users : DB :=
  with_objectStore users {[ "u1" := row_u; "u2" := row_v ]} empty_db.

(** A localStorage with the seven keys of the facade, the migration marker
    and a group binding. *)
Definition sample_localStorage : gmap string string :=
  list_to_map
    [ ("transport_users", "[]"); ("transport_passengers", "[]");
      ("transport_conductors", "[]"); ("transport_trips", "[]");
      ("transport_current_user", "{}"); ("transport_signatures", "[]");
      ("transport_conductor_credentials", "[]");
      ("transport_migration_completed", "true");
      (sample_key, sample_group) ].


(** The page shows what the passengers store holds: every stored object
    sits under its id and is on the list of the page. *)
Definition mirrors (l : list Row) (db : DB) : Prop :=
  keyed (objectStore passengers db) /\
  forall k r, objectStore passengers db !! k = Some r -> r ∈ l.

(** The duplicate check of [handleSubmit] finds a passenger of the page in
    the way. *)
Definition in_the_way (pg : Passengers.Page) : option Row :=
  List.find
    (fun p => opt_eqb (row_cedula p) (Passengers.fd_cedula (Passengers.formData pg)) &&
              match Passengers.editingPassenger pg with
              | None => true
              | Some e => negb (String.eqb (row_id p) (row_id e))
              end)
    (Passengers.pg_passengers pg).

(** Sample form, QR generator and clock readings for the passengers page. *)
Definition sample_form : Passengers.FormData :=
  Passengers.mkFormData "Eva" "12345678" "Ventas".

Definition other_form : Passengers.FormData :=
  Passengers.mkFormData "Ana" "87654321" "Compras".

Definition sample_generate (cedula name gerencia timestamp : string)
    : Storage.Outcome string :=
  Storage.Fulfilled ("QR:" +:+ cedula).

Definition sample_new_rest (name gerencia qrCode createdAt : string) : string :=
  name +:+ "|" +:+ gerencia +:+ "|" +:+ qrCode +:+ "|" +:+ createdAt.

Definition sample_edited_rest (fd : Passengers.FormData) (rest : string) : string :=
  Passengers.fd_name fd +:+ "|" +:+ Passengers.fd_gerencia fd +:+ "|" +:+ rest.

Definition page_with_form (l : list Row) (fd : Passengers.FormData)
    (editing : option Row) : Passengers.Page :=
  Passengers.mkPage l fd editing true [].

End FacadeVocabulary.

(** ** Vocabulary for the scanning page, continued *)

Section PageVocabulary.
Import ScanQR.

(** The key under which [tripsByRoute] files a trip. *)
Definition route_key (t : Trip) : string :=
  if truthy (trip_ruta t) then trip_ruta t else "Ruta no especificada".

(** The key of the trip is a name that object literals inherit. *)
Definition inherited (t : Trip) : bool :=
  bool_decide (route_key t ∈ Object_prototype_names).

(** The trips filed under [r], in their order, if there are any. *)
Definition bucket (r : string) (trips : list Trip) : option (list Trip) :=
  match List.filter (fun t => String.eqb (route_key t) r) trips with
  | [] => None
  | l => Some l
  end.

Definition page_trips (pg : Page) : list Trip := ls_trips (page_state pg).
Definition page_items (pg : Page) : gmap string string := ls_items (page_state pg).
Definition banner (pg : Page) : option ScanResult := scanResult (page_state pg).

(** The page holds promises where it expects its passengers and its
    conductors, as it does once [loadData] has run. *)
Definition loaded (s : State) : Prop :=
  (exists ps, passengers s = PromiseOf ps) /\ (exists cs, conductors s = PromiseOf cs).

(** The sample page with the manual entry open and a cedula typed in, its
    passengers list holding the sample passenger. *)
Definition state_with_passenger : State :=
  with_passengers (ArrayOf [sample_passenger]) state_empty.

Definition entry_page (s : State) (cedula : string) : Page :=
  mkPage s None false true cedula.

(** A [parseQRData] for the samples: the text after ["QR:"]. *)
Definition sample_parse (qrData : string) : option string :=
  match qrData with
  | String "Q" (String "R" (String ":" cedula)) => Some cedula
  | _ => None
  end.

(** No group holds more than 18 trips. *)
Definition within_capacity (l : list Trip) : Prop :=
  forall g, length (group_trips g l) <= 18.

(** The clock advances from each reading to the next. *)
Definition increasing (s : State) : Prop :=
  forall i j, i < j -> (epochMs (clock s i) < epochMs (clock s j))%N.

(** Every stored id is the text of an instant before the next reading of
    the clock, as the ids are that [iniciarViaje] made from earlier
    readings. *)
Definition ids_minted_before (s : State) : Prop :=
  forall i, i ∈ map trip_id (ls_trips s) ->
    exists n, i = pretty n /\ (n < epochMs (clock s (tick s)))%N.

(** The action is not a confirmed [finalizarRuta] on a page that holds a
    promise where it expects its conductors. *)
Definition reaches_loadData (a : Action) (s : State) : Prop :=
  forall ruta, a = FinalizeRoute ruta true -> exists cs, conductors s = ArrayOf cs.


End PageVocabulary.

(** * Proofs *)

(** ** The scanning page *)

Local Arguments Nat.leb : simpl never.

Ltac proj_simpl :=
  cbn [ls_trips ls_items db_passengers db_conductors user activeTrips passengers
       conductors currentGroupId shift scanResult clock tick
       with_ls_trips with_ls_items with_activeTrips with_passengers
       with_conductors with_currentGroupId with_shift with_scanResult with_tick].

Lemma with_tick_same s : with_tick (tick s) s = s.
Proof. by destruct s. Qed.

Lemma mapM_stamp (P : Trip -> bool) l s :
  mapM (fun trip =>
          if P trip then
            let* now := toISOString in ret (finalized_at now trip)
          else ret trip) l s
  = (Normal (stamp P (clock s) (tick s) l),
     with_tick (tick s + length (List.filter P l)) s).
Proof.
  revert s. induction l as [|t l IH]; intros s; simpl.
  - unfold ret. by rewrite Nat.add_0_r, with_tick_same.
  - unfold bind at 1. destruct (P t) eqn:HP.
    + unfold bind at 1. simpl. unfold bind. rewrite IH. simpl.
      unfold ret. f_equal. unfold with_tick. simpl. f_equal. lia.
    + unfold ret at 1. unfold bind. rewrite IH. reflexivity.
Qed.

Lemma stamp_length P clk k l : length (stamp P clk k l) = length l.
Proof.
  revert k. induction l as [|t l IH]; intros k; simpl; [done|].
  destruct (P t); simpl; by rewrite IH.
Qed.

Lemma stamp_lookup P clk k l i t :
  l !! i = Some t ->
  stamp P clk k l !! i =
    Some (if P t
          then finalized_at
                 (isoString (clk (k + length (List.filter P (take i l))))) t
          else t).
Proof.
  revert k i. induction l as [|x l IH]; intros k i H; [done|].
  destruct i as [|i]; simpl in *.
  - injection H as ->. destruct (P t); simpl; [|done].
    by rewrite Nat.add_0_r.
  - destruct (P x) eqn:HP; simpl; rewrite (IH _ _ H); [|done].
    destruct (P t); [|done]. do 4 f_equal. lia.
Qed.

Lemma stamp_none P clk k l :
  (forall t, t ∈ l -> P t = false) -> stamp P clk k l = l.
Proof.
  revert k. induction l as [|x l IH]; intros k H; simpl; [done|].
  rewrite (H x) by constructor. f_equal. apply IH.
  intros t Ht. apply H. by constructor.
Qed.

(** *** [loadData] throws *)

(** The facade hands [loadData] a promise of the conductors; the page
    stores it and then calls [find] on it. *)
Lemma loadData_eq s :
  loadData s =
  (Throw TypeError,
   with_conductors (PromiseOf (db_conductors s))
     (with_passengers (PromiseOf (db_passengers s))
        (with_activeTrips (List.filter is_en_curso (ls_trips s)) s))).
Proof. reflexivity. Qed.

Lemma loadData_ls_trips s : ls_trips (exec loadData s) = ls_trips s.
Proof. reflexivity. Qed.

Lemma loadData_ls_items s : ls_items (exec loadData s) = ls_items s.
Proof. reflexivity. Qed.

(** *** What finalizing one trip does *)

Lemma finalizarViaje_eq tripId s :
  finalizarViaje tripId s =
  loadData
    (with_ls_trips
       (stamp (fun t => String.eqb (trip_id t) tripId) (clock s) (tick s) (ls_trips s))
       (with_tick
          (tick s + length (List.filter (fun t => String.eqb (trip_id t) tripId)
                              (ls_trips s))) s)).
Proof.
  unfold finalizarViaje. unfold bind at 1. unfold getTrips at 1.
  unfold bind at 1.
  pose proof (mapM_stamp (fun t => String.eqb (trip_id t) tripId) (ls_trips s) s) as H.
  cbv beta in H. rewrite H. reflexivity.
Qed.

Lemma finalizarViaje_ls_trips tripId s :
  ls_trips (exec (finalizarViaje tripId) s) =
  stamp (fun t => String.eqb (trip_id t) tripId) (clock s) (tick s) (ls_trips s).
Proof. unfold exec. by rewrite finalizarViaje_eq. Qed.

Lemma finalizarViaje_ls_items tripId s :
  ls_items (exec (finalizarViaje tripId) s) = ls_items s.
Proof. unfold exec. by rewrite finalizarViaje_eq. Qed.

Lemma finalizarViaje_reports tripId s : reports (finalizarViaje tripId) s = None.
Proof. unfold reports, exec. by rewrite finalizarViaje_eq. Qed.

Lemma finalizarViaje_throws tripId s :
  completion (finalizarViaje tripId) s = Throw TypeError.
Proof. unfold completion. by rewrite finalizarViaje_eq. Qed.

Lemma id_eqb_false (t : Trip) tripId :
  trip_id t <> tripId -> String.eqb (trip_id t) tripId = false.
Proof. by intros H; apply String.eqb_neq. Qed.

(** The trips that [finalizarViaje] leaves alone. *)
Lemma finalizarViaje_frame tripId s :
  let s' := exec (finalizarViaje tripId) s in
  length (ls_trips s') = length (ls_trips s) /\
  (forall i t, ls_trips s !! i = Some t -> trip_id t <> tripId ->
               ls_trips s' !! i = Some t) /\
  ((forall t, t ∈ ls_trips s -> trip_id t <> tripId) -> ls_trips s' = ls_trips s).
Proof.
  cbv zeta. rewrite finalizarViaje_ls_trips. split; [apply stamp_length|]. split.
  - intros i t Hi Hne. rewrite (stamp_lookup _ _ _ _ _ _ Hi).
    by rewrite (id_eqb_false _ _ Hne).
  - intros Hall. apply stamp_none. intros t Ht. apply id_eqb_false. by apply Hall.
Qed.

(** C10. [finalizarViaje] keeps the number of stored trips and leaves every
    trip with another id as it was, and with an id that no stored trip has
    it leaves the whole trip store unchanged; but the call does not complete
    without error: at the end [loadData] throws a [TypeError]. Here for the
    sample store and the id ["0"]. *)
Lemma finalizarViaje_unknown_id_throws :
  let s := state_one_finalized in
  let s' := exec (finalizarViaje "0") s in
  (forall t, t ∈ ls_trips s -> trip_id t <> "0") /\
  length (ls_trips s') = length (ls_trips s) /\
  ls_trips s' = ls_trips s /\
  completion (finalizarViaje "0") s = Throw TypeError.
Proof.
  cbv zeta.
  assert (H : forall t, t ∈ ls_trips state_one_finalized -> trip_id t <> "0").
  { intros t Ht. apply list_elem_of_singleton in Ht. by subst t. }
  destruct (finalizarViaje_frame "0" state_one_finalized) as (Hlen & _ & Hsame).
  split; [exact H|]. split; [exact Hlen|]. split; [by apply Hsame|].
  apply finalizarViaje_throws.
Qed.

(** C2, as the code has it. When no stored trip has the given id,
    [finalizarViaje] reports nothing about it: it raises no banner and
    leaves the stored trips and the other localStorage items as they
    were. *)
Theorem finalizarViaje_unknown_id tripId s :
  (forall t, t ∈ ls_trips s -> trip_id t <> tripId) ->
  reports (finalizarViaje tripId) s = None /\
  ls_trips (exec (finalizarViaje tripId) s) = ls_trips s /\
  ls_items (exec (finalizarViaje tripId) s) = ls_items s.
Proof.
  intros Hall. split; [apply finalizarViaje_reports|]. split.
  - by apply finalizarViaje_frame.
  - apply finalizarViaje_ls_items.
Qed.

Lemma finalizarViaje_unknown_id_witness :
  reports (finalizarViaje "0") state_one_finalized = None /\
  ls_trips (exec (finalizarViaje "0") state_one_finalized) = [finalized_sample] /\
  ls_items (exec (finalizarViaje "0") state_one_finalized) =
    {[ sample_key := sample_group ]}.
Proof.
  apply (finalizarViaje_unknown_id "0" state_one_finalized).
  intros t Ht. apply list_elem_of_singleton in Ht. by subst t.
Defined.

(** C2 as stated fails: the only stored trip has another id, and the call
    raises no error banner; what it throws is what it throws for the id of
    the stored trip as well. *)
Lemma finalizarViaje_not_found_counterexample :
  let s := state_one_finalized in
  (forall t, t ∈ ls_trips s -> trip_id t <> "0") /\
  ~ fails (finalizarViaje "0") s /\
  completion (finalizarViaje "0") s =
  completion (finalizarViaje (trip_id finalized_sample)) s.
Proof.
  cbv zeta. split; [|split].
  - intros t Ht. apply list_elem_of_singleton in Ht. by subst t.
  - intros [msg H]. by rewrite finalizarViaje_reports in H.
  - by rewrite !finalizarViaje_throws.
Qed.

Lemma erase_finalized_at now t :
  erase_endTime (finalized_at now t) = erase_endTime (finalized_at "" t).
Proof. reflexivity. Qed.






(** *** What a start call does *)

Lemma ensureGroup_eq cid ruta sh s :
  ensureGroup cid ruta sh s =
  let key := groupStorageKey cid ruta sh (day_of (isoString (clock s (tick s)))) in
  match or_null (ls_items s !! key) with
  | Some g => (Normal g, with_currentGroupId (Some g) (with_tick (S (tick s)) s))
  | None =>
      let g := minted cid (epochMs (clock s (S (tick s)))) in
      (Normal g, with_currentGroupId (Some g)
                   (with_ls_items (<[key := g]> (ls_items s))
                      (with_tick (S (S (tick s))) s)))
  end.
Proof.
  cbv zeta. unfold ensureGroup, bind, buildGroupStorageKey, bind, toISOString,
    getItem, ret. simpl.
  destruct (or_null _); reflexivity.
Qed.

Lemma iniciarViaje_promise p s cs :
  conductors s = PromiseOf cs -> iniciarViaje p s = (Throw TypeError, s).
Proof.
  intros Hc. unfold iniciarViaje, bind, get, find_conductor, find.
  by rewrite Hc.
Qed.

Lemma iniciarViaje_no_shift p s cs :
  conductors s = ArrayOf cs ->
  shift s = None ->
  iniciarViaje p s =
  (Normal tt, with_scanResult (Some (mkScanResult error msg_select_shift)) s).
Proof.
  intros Hc Hsh. unfold iniciarViaje, bind, get, find_conductor, find.
  rewrite Hc. unfold ret. by rewrite Hsh.
Qed.

Lemma iniciarViaje_array p s cs sh :
  conductors s = ArrayOf cs ->
  shift s = Some sh ->
  iniciarViaje p s =
  match ensureGroup (current_conductorId s) (current_ruta s) (Some sh) s with
  | (Normal g, s1) =>
      if (18 <=? length (group_trips g (ls_trips s)))%nat then
        (Normal tt, with_scanResult (Some (mkScanResult error msg_capacity)) s1)
      else
        loadData
          (with_ls_trips (ls_trips s ++ [new_trip s sh g (tick s1) p])%list
             (with_tick (S (S (S (tick s1)))) s1))
  | (Throw e, s1) => (Throw e, s1)
  end.
Proof.
  intros Hc Hsh.
  unfold new_trip, current_conductorId, current_ruta, current_conductor.
  unfold iniciarViaje. unfold bind at 1. unfold get at 1.
  unfold bind at 1. unfold find_conductor, find. rewrite Hc. unfold ret at 1.
  rewrite Hsh. unfold bind at 1.
  rewrite ensureGroup_eq. cbv zeta.
  destruct (or_null _) as [g|]; unfold bind at 1; unfold getTrips at 1;
    simpl ls_trips; unfold group_trips;
    (destruct (18 <=? _)%nat; [reflexivity|]); reflexivity.
Qed.

Lemma iniciarViaje_ls_trips p s :
  ls_trips (exec (iniciarViaje p) s) = ls_trips s \/
  exists sh g k, ls_trips (exec (iniciarViaje p) s) =
                 (ls_trips s ++ [new_trip s sh g k p])%list.
Proof.
  unfold exec. destruct (conductors s) as [cs|cs] eqn:Hc.
  - destruct (shift s) as [sh|] eqn:Hsh.
    + rewrite (iniciarViaje_array p s cs sh Hc Hsh), ensureGroup_eq. cbv zeta.
      destruct (or_null _) as [g|]; (destruct (18 <=? _)%nat; [by left|]);
        right; eexists _, _, _; reflexivity.
    + rewrite (iniciarViaje_no_shift p s cs Hc Hsh). by left.
  - rewrite (iniciarViaje_promise p s cs Hc). by left.
Qed.

(** *** What finalizing a route does *)

Lemma finalizarRuta_eq ruta s :
  finalizarRuta ruta true s =
  let n := length (List.filter (on_route_in_view ruta s) (ls_trips s)) in
  let s1 :=
    with_ls_trips (stamp (on_route_in_view ruta s) (clock s) (tick s) (ls_trips s))
      (with_tick (tick s + n) s) in
  match conductors s with
  | ArrayOf _ =>
      loadData
        (with_currentGroupId None
           (with_ls_items (delete (cleared_key ruta s) (ls_items s))
              (with_tick (S (tick s + n)) s1)))
  | PromiseOf _ => (Throw TypeError, s1)
  end.
Proof.
  cbv zeta. unfold cleared_key, current_conductorId, current_conductor.
  unfold finalizarRuta. unfold bind at 1. unfold get at 1.
  unfold bind at 1. unfold getTrips at 1. unfold bind at 1.
  pose proof (mapM_stamp (on_route_in_view ruta s) (ls_trips s) s) as H.
  unfold on_route_in_view in H at 1. cbv beta in H. rewrite H.
  unfold bind at 1. unfold saveTrips, modify. unfold bind at 1.
  unfold find_conductor, find. proj_simpl.
  destruct (conductors s); reflexivity.
Qed.

Lemma finalizarRuta_declined ruta s : finalizarRuta ruta false s = (Normal tt, s).
Proof. reflexivity. Qed.

Lemma finalizarRuta_ls_trips ruta s :
  ls_trips (exec (finalizarRuta ruta true) s) =
  stamp (on_route_in_view ruta s) (clock s) (tick s) (ls_trips s).
Proof.
  unfold exec. rewrite finalizarRuta_eq. cbv zeta. by destruct (conductors s).
Qed.

Lemma selectShift_ls_trips v s : ls_trips (exec (selectShift v) s) = ls_trips s.
Proof.
  unfold exec, selectShift, bind, get, setShift, modify, find_conductor, find.
  proj_simpl. by destruct (conductors s).
Qed.

(** *** Monotonic status *)

Lemma later_version_refl t : later_version t t.
Proof. by split. Qed.

Lemma later_version_trans t1 t2 t3 :
  later_version t1 t2 -> later_version t2 t3 -> later_version t1 t3.
Proof. intros [H1 H2] [H3 H4]. split; [congruence | auto]. Qed.

Lemma later_version_stamp P clk k l i t :
  l !! i = Some t ->
  exists t', stamp P clk k l !! i = Some t' /\ later_version t t'.
Proof.
  intros Hi. rewrite (stamp_lookup _ _ _ _ _ _ Hi).
  eexists; split; [reflexivity|]. destruct (P t); by split.
Qed.

Lemma perform_later_version a s i t :
  ls_trips s !! i = Some t ->
  exists t', ls_trips (exec (perform a) s) !! i = Some t' /\ later_version t t'.
Proof.
  intros Hi. destruct a as [p|tripId|ruta [|]|v]; unfold perform.
  - exists t. split; [|apply later_version_refl].
    destruct (iniciarViaje_ls_trips p s) as [->|(sh & g & k & ->)]; [done|].
    by apply lookup_app_l_Some.
  - rewrite finalizarViaje_ls_trips. by apply later_version_stamp.
  - rewrite finalizarRuta_ls_trips. by apply later_version_stamp.
  - exists t. by split; [|apply later_version_refl].
  - exists t. rewrite selectShift_ls_trips. by split; [|apply later_version_refl].
Qed.

(** C8. Through every sequence of actions on the page (start, finalize one,
    finalize route, shift selection), whether or not a handler throws, a
    stored trip keeps its place and its id, a trip that is finalized stays
    finalized, and the only change of status that ever happens is from
    [en_curso] to [finalizado]. *)
Theorem status_monotonic acts s i t :
  ls_trips s !! i = Some t ->
  exists t',
    ls_trips (run acts s) !! i = Some t' /\
    trip_id t' = trip_id t /\
    (trip_status t = finalizado -> trip_status t' = finalizado) /\
    (trip_status t' <> trip_status t ->
     trip_status t = en_curso /\ trip_status t' = finalizado).
Proof.
  intros Hi.
  assert (H : exists t', ls_trips (run acts s) !! i = Some t' /\ later_version t t').
  { revert s t Hi. induction acts as [|a acts IH]; intros s t Hi; simpl.
    - exists t. split; [done | apply later_version_refl].
    - destruct (perform_later_version a s i t Hi) as (t1 & H1 & L1).
      destruct (IH _ _ H1) as (t2 & H2 & L2).
      exists t2. split; [done | by eapply later_version_trans]. }
  destruct H as (t' & Ht' & Hid & Hfin).
  exists t'. repeat split; try done.
  - destruct (trip_status t), (trip_status t'); try done. by specialize (Hfin eq_refl).
  - destruct (trip_status t), (trip_status t'); try done. by specialize (Hfin eq_refl).
Qed.

Lemma status_monotonic_witness :
  exists t',
    ls_trips (run [FinalizeOne "1741078800000"; Start sample_passenger;
                   FinalizeRoute sample_route true] state_one_finalized) !! 0
    = Some t' /\
    trip_id t' = "1741078800000" /\ trip_status t' = finalizado.
Proof.
  destruct (status_monotonic
              [FinalizeOne "1741078800000"; Start sample_passenger;
               FinalizeRoute sample_route true] state_one_finalized 0 finalized_sample)
    as (t' & Ht' & Hid & Hfin & _); [reflexivity|].
  exists t'. split; [exact Ht'|]. split; [exact Hid|]. by apply Hfin.
Defined.

(** *** Capacity *)

Lemma group_of_eq cid ruta sh s :
  group_of cid ruta sh s =
  match or_null (ls_items s !!
          groupStorageKey cid ruta sh (day_of (isoString (clock s (tick s))))) with
  | Some g => g
  | None => minted cid (epochMs (clock s (S (tick s))))
  end.
Proof.
  unfold group_of, value, completion. rewrite ensureGroup_eq. cbv zeta.
  by destruct (or_null _).
Qed.

Lemma iniciarViaje_cases p s cs sh :
  conductors s = ArrayOf cs ->
  shift s = Some sh ->
  let g := derived_groupId s in
  (18 <= length (group_trips g (ls_trips s)) ->
   capacity_exceeded (iniciarViaje p) s /\
   completion (iniciarViaje p) s = Normal tt /\
   ls_trips (exec (iniciarViaje p) s) = ls_trips s) /\
  (length (group_trips g (ls_trips s)) < 18 ->
   reports (iniciarViaje p) s = None /\
   exists k, ls_trips (exec (iniciarViaje p) s) =
             (ls_trips s ++ [new_trip s sh g k p])%list).
Proof.
  intros Hc Hsh. cbv zeta.
  unfold capacity_exceeded, reports, completion, exec, derived_groupId.
  rewrite group_of_eq, Hsh.
  rewrite (iniciarViaje_array p s cs sh Hc Hsh).
  rewrite (iniciarViaje_array p (with_scanResult None s) cs sh Hc Hsh).
  rewrite !ensureGroup_eq. cbv zeta. proj_simpl.
  change (current_conductorId (with_scanResult None s)) with (current_conductorId s).
  change (current_ruta (with_scanResult None s)) with (current_ruta s).
  destruct (or_null _) as [g|]; proj_simpl;
    (match goal with
     | |- context [(18 <=? ?n)%nat] => destruct (Nat.leb_spec 18 n)
     end;
     (split; intros Hn; [|]; try lia; repeat split; eauto)).
Qed.

(** C1, as the code has it. With a shift selected and the page holding its
    conductors as an array, a start call counts the stored trips that carry
    the group id it derives, whatever their status: with 18 or more of them
    it raises the capacity banner, returns, and stores nothing; with fewer
    it raises no banner and appends exactly one trip, under way and in that
    group. *)
Theorem iniciarViaje_capacity p s cs :
  conductors s = ArrayOf cs ->
  shift s <> None ->
  let g := derived_groupId s in
  let s' := exec (iniciarViaje p) s in
  (18 <= length (group_trips g (ls_trips s)) ->
   capacity_exceeded (iniciarViaje p) s /\
   completion (iniciarViaje p) s = Normal tt /\
   ls_trips s' = ls_trips s) /\
  (length (group_trips g (ls_trips s)) < 18 ->
   reports (iniciarViaje p) s = None /\
   exists t, ls_trips s' = (ls_trips s ++ [t])%list /\
             trip_status t = en_curso /\ trip_groupId t = Some g).
Proof.
  intros Hc Hsh. cbv zeta. destruct (shift s) as [sh|] eqn:E; [|done].
  destruct (iniciarViaje_cases p s cs sh Hc E) as [Hfull Hroom].
  split; [exact Hfull|]. intros Hlt.
  destruct (Hroom Hlt) as [Hok [k Hk]]. split; [exact Hok|].
  eexists. split; [exact Hk|]. by split.
Qed.

Lemma iniciarViaje_capacity_witness :
  (exists t, ls_trips (exec (iniciarViaje sample_passenger) state_empty) = [t] /\
             trip_status t = en_curso) /\
  capacity_exceeded (iniciarViaje sample_passenger) state_18_finalized.
Proof.
  split.
  - destruct (iniciarViaje_capacity sample_passenger state_empty [])
      as [_ Hroom]; [reflexivity | by vm_compute |].
    destruct Hroom as (_ & t & Ht & Hst & _); [vm_compute; lia|].
    exists t. by split.
  - destruct (iniciarViaje_capacity sample_passenger state_18_finalized [])
      as [Hfull _]; [reflexivity | by vm_compute |].
    apply Hfull. vm_compute. lia.
Defined.

(** C1 as stated fails: eighteen trips of the group are stored, all of them
    finalized, so no trip of the group is under way; the start call is
    refused for capacity all the same. *)
Lemma capacity_counts_finalized_counterexample :
  let s := state_18_finalized in
  let g := derived_groupId s in
  shift s <> None /\
  g = sample_group /\
  length (active_group_trips g (ls_trips s)) = 0 /\
  length (group_trips g (ls_trips s)) = 18 /\
  capacity_exceeded (iniciarViaje sample_passenger) s /\
  ls_trips (exec (iniciarViaje sample_passenger) s) = ls_trips s.
Proof. cbv zeta. split; [by vm_compute|]. by vm_compute. Qed.

(** *** Strings and group keys *)

Lemma append_assoc (a b c : string) : (a +:+ b) +:+ c = a +:+ (b +:+ c).
Proof. induction a as [|x a IH]; [done|]. change (String x ((a +:+ b) +:+ c) = String x (a +:+ (b +:+ c))). by rewrite IH. Qed.

Lemma append_length (a b : string) :
  String.length (a +:+ b) = String.length a + String.length b.
Proof. induction a as [|x a IH]; [done|]. change (S (String.length (a +:+ b)) = S (String.length a + String.length b)). by rewrite IH. Qed.

Lemma append_inv_tail (x y a b : string) :
  x +:+ a = y +:+ b -> String.length a = String.length b -> x = y /\ a = b.
Proof.
  revert y. induction x as [|c x IH]; intros [|c' y] H Hlen.
  - done.
  - apply (f_equal String.length) in H. rewrite !append_length in H.
    cbn [String.length] in H. lia.
  - apply (f_equal String.length) in H. rewrite !append_length in H.
    cbn [String.length] in H. lia.
  - change (String c (x +:+ a) = String c' (y +:+ b)) in H.
    injection H as -> H. destruct (IH _ H Hlen) as [-> ->]. done.
Qed.

Lemma append_split_underscore (a b x y : string) :
  no_underscore a = true -> no_underscore b = true ->
  a +:+ String "_" x = b +:+ String "_" y -> a = b /\ x = y.
Proof.
  revert b. induction a as [|c a IH]; intros [|c' b] Ha Hb H.
  - change (String "_" x = String "_" y) in H. by injection H.
  - change (String "_" x = String c' (b +:+ String "_" y)) in H.
    injection H as <- _. done.
  - change (String c (a +:+ String "_" x) = String "_" y) in H.
    injection H as -> _. done.
  - change (String c (a +:+ String "_" x) = String c' (b +:+ String "_" y)) in H.
    injection H as -> H. cbn [no_underscore] in Ha, Hb.
    apply andb_prop in Ha as [_ Ha], Hb as [_ Hb].
    destruct (IH _ Ha Hb H) as [-> ->]. done.
Qed.

Lemma shift_segment_inj r1 r2 sh1 sh2 :
  r1 +:+ "_" +:+ shift_segment sh1 +:+ "_" = r2 +:+ "_" +:+ shift_segment sh2 +:+ "_" ->
  r1 = r2 /\ sh1 = sh2.
Proof.
  intros H.
  assert (Hsh : sh1 = sh2).
  { destruct sh1 as [[|]|], sh2 as [[|]|]; try done; exfalso;
      cbn [shift_segment shift_string] in H;
      match type of H with
      | ?a +:+ ?u = ?b +:+ ?v =>
          let u' := eval vm_compute in (String.rev (substring 2 100 (String.rev u))) in
          let v' := eval vm_compute in (String.rev (substring 2 100 (String.rev v))) in
          let e1 := eval vm_compute in (String.rev (substring 0 2 (String.rev u))) in
          let e2 := eval vm_compute in (String.rev (substring 0 2 (String.rev v))) in
          change (a +:+ (u' +:+ e1) = b +:+ (v' +:+ e2)) in H;
          rewrite <- !append_assoc in H;
          apply append_inv_tail in H as [_ H]; [discriminate | reflexivity]
      end. }
  subst sh2. split; [|done].
  apply append_inv_tail in H as [H _]; done.
Qed.

Lemma groupStorageKey_inj c1 r1 sh1 d1 c2 r2 sh2 d2 :
  no_underscore c1 = true -> no_underscore c2 = true ->
  truthy r1 = true -> truthy r2 = true ->
  String.length d1 = String.length d2 ->
  groupStorageKey c1 r1 sh1 d1 = groupStorageKey c2 r2 sh2 d2 ->
  c1 = c2 /\ r1 = r2 /\ sh1 = sh2 /\ d1 = d2.
Proof.
  intros Hc1 Hc2 Hr1 Hr2 Hd H. unfold groupStorageKey in H.
  rewrite Hr1, Hr2 in H. fold (shift_segment sh1) in H. fold (shift_segment sh2) in H.
  apply String.app_inj in H.
  apply (append_split_underscore c1 c2 _ _ Hc1 Hc2) in H as [-> H].
  assert (Hassoc : forall r seg d,
             r +:+ "_" +:+ seg +:+ "_" +:+ d = (r +:+ "_" +:+ seg +:+ "_") +:+ d).
  { intros. by rewrite !append_assoc. }
  rewrite !Hassoc in H. apply append_inv_tail in H as [H ->]; [|exact Hd].
  apply shift_segment_inj in H as [-> ->]. done.
Qed.

Lemma groupStorageKey_shift_ne cid ruta d sh1 sh2 :
  sh1 <> sh2 -> groupStorageKey cid ruta sh1 d <> groupStorageKey cid ruta sh2 d.
Proof.
  intros Hne H. unfold groupStorageKey in H.
  fold (shift_segment sh1) in H. fold (shift_segment sh2) in H.
  do 4 apply String.app_inj in H.
  destruct sh1 as [[|]|], sh2 as [[|]|]; try done;
    cbn [shift_segment shift_string] in H;
    apply (f_equal String.length) in H; rewrite !append_length in H;
    cbn [String.length] in H; lia.
Qed.

Lemma minted_inj cid n m : minted cid n = minted cid m -> n = m.
Proof.
  unfold minted. intros H. do 2 apply String.app_inj in H.
  by apply (inj pretty) in H.
Qed.


Lemma ensureGroup_bound cid ruta sh s d g :
  same_day s d ->
  or_null (ls_items s !! groupStorageKey cid ruta sh d) = Some g ->
  ensureGroup cid ruta sh s =
  (Normal g, with_currentGroupId (Some g) (with_tick (S (tick s)) s)).
Proof.
  intros Hday Hg. rewrite ensureGroup_eq. cbv zeta.
  rewrite !(Hday (tick s)). by rewrite Hg.
Qed.

Lemma ensureGroup_unbound cid ruta sh s d :
  same_day s d ->
  or_null (ls_items s !! groupStorageKey cid ruta sh d) = None ->
  ensureGroup cid ruta sh s =
  (Normal (minted cid (epochMs (clock s (S (tick s))))),
   with_currentGroupId (Some (minted cid (epochMs (clock s (S (tick s))))))
     (with_ls_items
        (<[groupStorageKey cid ruta sh d := minted cid (epochMs (clock s (S (tick s))))]>
           (ls_items s))
        (with_tick (S (S (tick s))) s))).
Proof.
  intros Hday Hg. rewrite ensureGroup_eq. cbv zeta.
  rewrite !(Hday (tick s)). by rewrite Hg.
Qed.

Lemma or_null_Some o g : or_null o = Some g <-> o = Some g /\ truthy g = true.
Proof.
  unfold or_null. destruct o as [x|].
  - destruct (truthy x) eqn:E; split.
    + intros [= ->]. by split.
    + by intros [[= ->] _].
    + done.
    + intros [[= ->] H]. congruence.
  - split; [done | by intros [? _]].
Qed.

Lemma truthy_minted cid n : truthy (minted cid n) = true.
Proof. unfold minted. by destruct cid. Qed.

Lemma ensureGroup_other_shift cid ruta sh1 sh2 s d :
  same_day s d ->
  sh1 <> sh2 ->
  ls_items s !! groupStorageKey cid ruta sh2 d = None ->
  let s1 := exec (ensureGroup cid ruta sh1) s in
  group_of cid ruta sh2 s1 = minted cid (epochMs (clock s (S (tick s1)))).
Proof.
  intros Hday Hne Hnone. cbv zeta. unfold group_of, value, completion, exec.
  assert (Hkey := groupStorageKey_shift_ne cid ruta d sh1 sh2 Hne).
  destruct (or_null (ls_items s !! groupStorageKey cid ruta sh1 d)) as [g|] eqn:Hg.
  - rewrite (ensureGroup_bound _ _ _ s d g Hday Hg). cbn [fst snd].
    rewrite (ensureGroup_unbound _ _ _ _ d); [done|done|].
    proj_simpl. by rewrite Hnone.
  - rewrite (ensureGroup_unbound _ _ _ s d Hday Hg). cbn [fst snd].
    rewrite (ensureGroup_unbound _ _ _ _ d); [done|done|].
    proj_simpl. rewrite lookup_insert_ne by done. by rewrite Hnone.
Qed.

Lemma perform_clock a s : clock (exec (perform a) s) = clock s.
Proof.
  unfold exec. destruct a as [p|tripId|ruta [|]|v]; unfold perform.
  - destruct (conductors s) as [cs|cs] eqn:Hc.
    + destruct (shift s) as [sh|] eqn:Hsh.
      * rewrite (iniciarViaje_array p s cs sh Hc Hsh), ensureGroup_eq. cbv zeta.
        by destruct (or_null _); destruct (18 <=? _)%nat.
      * by rewrite (iniciarViaje_no_shift p s cs Hc Hsh).
    + by rewrite (iniciarViaje_promise p s cs Hc).
  - by rewrite finalizarViaje_eq.
  - rewrite finalizarRuta_eq. cbv zeta. by destruct (conductors s).
  - done.
  - unfold selectShift, bind, get, setShift, modify, find_conductor, find.
    proj_simpl. by destruct (conductors s).
Qed.

Lemma perform_binding a s key g :
  keeps_bindings a = true ->
  or_null (ls_items s !! key) = Some g ->
  or_null (ls_items (exec (perform a) s) !! key) = Some g.
Proof.
  intros Hk Hg. unfold exec.
  destruct a as [p|tripId|ruta [|]|v]; unfold perform; try done.
  - destruct (conductors s) as [cs|cs] eqn:Hc.
    + destruct (shift s) as [sh|] eqn:Hsh.
      * rewrite (iniciarViaje_array p s cs sh Hc Hsh), ensureGroup_eq. cbv zeta.
        match goal with
        | |- context [or_null (ls_items s !! groupStorageKey ?c ?r ?x ?y)] =>
            destruct (or_null (ls_items s !! groupStorageKey c r x y))
              as [g'|] eqn:E
        end; destruct (18 <=? _)%nat; rewrite ?loadData_eq; cbn [snd];
          proj_simpl; try done;
          (rewrite lookup_insert_ne; [done|]; intros Heq; rewrite Heq in E;
           congruence).
      * by rewrite (iniciarViaje_no_shift p s cs Hc Hsh).
    + by rewrite (iniciarViaje_promise p s cs Hc).
  - by rewrite finalizarViaje_eq.
  - unfold selectShift, bind, get, setShift, modify, find_conductor, find.
    proj_simpl. by destruct (conductors s).
Qed.

Lemma run_binding acts s d key g :
  forallb keeps_bindings acts = true ->
  same_day s d ->
  or_null (ls_items s !! key) = Some g ->
  same_day (run acts s) d /\ or_null (ls_items (run acts s) !! key) = Some g.
Proof.
  revert s. induction acts as [|a acts IH]; intros s Hk Hday Hg; [done|].
  simpl in Hk. apply andb_prop in Hk as [Ha Hk]. simpl. apply IH; [done| |].
  - intros k. rewrite perform_clock. apply Hday.
  - by apply perform_binding.
Qed.

Lemma ensureGroup_stable cid ruta sh acts s d :
  same_day s d ->
  forallb keeps_bindings acts = true ->
  group_of cid ruta sh (run acts (exec (ensureGroup cid ruta sh) s)) =
  group_of cid ruta sh s.
Proof.
  intros Hday Hk.
  assert (H : exists g,
             group_of cid ruta sh s = g /\
             same_day (exec (ensureGroup cid ruta sh) s) d /\
             or_null (ls_items (exec (ensureGroup cid ruta sh) s)
                        !! groupStorageKey cid ruta sh d) = Some g).
  { unfold group_of, value, completion, exec.
    destruct (or_null (ls_items s !! groupStorageKey cid ruta sh d)) as [g|] eqn:Hg.
    - rewrite (ensureGroup_bound _ _ _ s d g Hday Hg). by exists g.
    - rewrite (ensureGroup_unbound _ _ _ s d Hday Hg). eexists. split; [done|].
      split; [done|]. cbn [snd]. proj_simpl.
      rewrite lookup_insert_eq. unfold or_null. by rewrite truthy_minted. }
  destruct H as (g & -> & Hday1 & Hg1).
  destruct (run_binding acts _ d _ g Hk Hday1 Hg1) as [Hday2 Hg2].
  unfold group_of, value, completion.
  by rewrite (ensureGroup_bound _ _ _ _ d g Hday2 Hg2).
Qed.

(** C5, as the code has it. The group key is a function of conductor id,
    route, shift and calendar day.  Two [ensureGroup] calls for the same
    conductor, route and shift, all clock readings on one day and no
    confirmed [finalizarRuta] between them, return the same group id.  The
    two shifts never share a key; a call for the other shift that finds no
    binding mints its id from its own [Date.now()], so it differs from a
    first id minted at another millisecond.  Keys of different tuples
    differ as long as the conductor ids have no underscore, the routes are
    not empty and the days have the same length. *)
Theorem group_key_deterministic :
  (forall cid ruta sh acts s d,
     same_day s d ->
     forallb keeps_bindings acts = true ->
     group_of cid ruta sh (run acts (exec (ensureGroup cid ruta sh) s)) =
     group_of cid ruta sh s) /\
  (forall cid ruta d sh1 sh2,
     sh1 <> sh2 ->
     groupStorageKey cid ruta sh1 d <> groupStorageKey cid ruta sh2 d) /\
  (forall cid ruta sh1 sh2 s d n,
     same_day s d ->
     sh1 <> sh2 ->
     ls_items s !! groupStorageKey cid ruta sh2 d = None ->
     let g1 := group_of cid ruta sh1 s in
     let s1 := exec (ensureGroup cid ruta sh1) s in
     let g2 := group_of cid ruta sh2 s1 in
     g2 = minted cid (epochMs (clock s (S (tick s1)))) /\
     (g1 = minted cid n -> n <> epochMs (clock s (S (tick s1))) -> g2 <> g1)) /\
  (forall c1 r1 sh1 d1 c2 r2 sh2 d2,
     no_underscore c1 = true -> no_underscore c2 = true ->
     truthy r1 = true -> truthy r2 = true ->
     String.length d1 = String.length d2 ->
     groupStorageKey c1 r1 sh1 d1 = groupStorageKey c2 r2 sh2 d2 ->
     c1 = c2 /\ r1 = r2 /\ sh1 = sh2 /\ d1 = d2).
Proof.
  split; [intros cid ruta sh acts s d Hday Hk; by apply (ensureGroup_stable _ _ _ _ _ d)|].
  split; [exact groupStorageKey_shift_ne|].
  split; [|exact groupStorageKey_inj].
  intros cid ruta sh1 sh2 s d n Hday Hne Hnone. cbv zeta.
  rewrite (ensureGroup_other_shift cid ruta sh1 sh2 s d Hday Hne Hnone).
  split; [done|]. intros -> Hn Heq. apply minted_inj in Heq. congruence.
Qed.

Lemma sample_clock_day k : day_of (isoString (sample_clock k)) = "2025-03-04".
Proof. reflexivity. Qed.

Lemma group_key_deterministic_witness :
  let s := state_empty in
  group_of "u1" sample_route (Some manana)
    (run [Start sample_passenger; SelectShift (Some noche); FinalizeOne "0"]
       (exec (ensureGroup "u1" sample_route (Some manana)) s))
  = group_of "u1" sample_route (Some manana) s /\
  groupStorageKey "u1" sample_route (Some manana) "2025-03-04" <>
  groupStorageKey "u1" sample_route (Some noche) "2025-03-04" /\
  group_of "u1" sample_route (Some noche)
    (exec (ensureGroup "u1" sample_route (Some manana)) s)
  <> group_of "u1" sample_route (Some manana) s /\
  ("u1" = "u1" /\ sample_route = sample_route /\ Some manana = Some manana /\
   "2025-03-04" = "2025-03-04").
Proof.
  cbv zeta. destruct group_key_deterministic as (Hsame & Hkeys & Hother & Hinj).
  split; [apply (Hsame _ _ _ _ _ "2025-03-04");
          [exact sample_clock_day | reflexivity]|].
  split; [apply Hkeys; discriminate|].
  split.
  - apply (Hother "u1" sample_route (Some manana) (Some noche) _ "2025-03-04"
             1741082401000%N);
      [exact sample_clock_day | discriminate | reflexivity | by vm_compute
      | by vm_compute].
  - apply (Hinj "u1" sample_route (Some manana) "2025-03-04"
             "u1" sample_route (Some manana) "2025-03-04");
      reflexivity.
Defined.

(** C5 as stated fails. An empty route and the route ['sin_ruta'] share one
    key, and so do conductor ["a_b"] on route ["c"] and conductor ["a"] on
    route ["b_c"]; and while the clock stands still, the call for the other
    shift returns the very group id of the first call. *)
Lemma group_key_counterexample :
  let s := sample_state frozen_clock [] ∅ in
  let s1 := exec (ensureGroup "u1" sample_route (Some manana)) s in
  ("" : string) <> "sin_ruta" /\
  groupStorageKey "u1" "" (Some manana) "2025-03-04" =
  groupStorageKey "u1" "sin_ruta" (Some manana) "2025-03-04" /\
  groupStorageKey "a_b" "c" (Some manana) "2025-03-04" =
  groupStorageKey "a" "b_c" (Some manana) "2025-03-04" /\
  group_of "u1" sample_route (Some noche) s1 =
  group_of "u1" sample_route (Some manana) s.
Proof. cbv zeta. split; [discriminate|]. by vm_compute. Qed.

(** *** Finalizing a route *)




Lemma finalizarRuta_promise ruta s cs :
  conductors s = PromiseOf cs ->
  completion (finalizarRuta ruta true) s = Throw TypeError /\
  ls_items (exec (finalizarRuta ruta true) s) = ls_items s /\
  currentGroupId (exec (finalizarRuta ruta true) s) = currentGroupId s.
Proof.
  intros Hc. unfold exec, completion. rewrite finalizarRuta_eq. cbv zeta.
  by rewrite Hc.
Qed.




(** Without the side conditions the route is not finalized as cleanly.
    With another shift selected in the meantime, the binding of the shift
    the trips were started under survives, so a later [ensureGroup] under
    that shift returns the old group. *)
Example finalizarRuta_keeps_other_shift :
  let s := state_night_selected in
  let s' := exec (finalizarRuta sample_route true) s in
  map trip_status (ls_trips s') = [finalizado] /\
  ls_items s' !! sample_key = Some sample_group /\
  (trip_groupId <$> ls_trips s' !! 0) =
  Some (Some (group_of "u1" sample_route (Some manana) s')).
Proof. cbv zeta. by vm_compute. Qed.

(** A trip on another route that shares its id with a trip under way on
    the route is finalized with it. *)
Example finalizarRuta_shared_id :
  let s' := exec (finalizarRuta sample_route true) state_shared_id in
  in_step state_shared_id /\
  map trip_ruta (ls_trips s') = [sample_route; "S"] /\
  map trip_status (ls_trips s') = [finalizado; finalizado].
Proof. cbv zeta. by vm_compute. Qed.

(** And on a page that went through [loadData], which holds a promise
    where it expects its conductors, the trips are finalized and saved but
    the handler stops before it removes the binding. *)
Example finalizarRuta_after_reload :
  let s := state_reloaded in
  let s' := exec (finalizarRuta sample_route true) s in
  completion (finalizarRuta sample_route true) s = Throw TypeError /\
  map trip_status (ls_trips s') = [finalizado] /\
  ls_items s' !! sample_key = Some sample_group.
Proof. cbv zeta. by vm_compute. Qed.

(** ** The durable store *)

Section DurableStore.
Import IndexedDB.

Lemma objectStore_with_eq sn v db : objectStore sn (with_objectStore sn v db) = v.
Proof. by destruct sn. Qed.

Lemma objectStore_with_ne sn sn' v db :
  sn <> sn' -> objectStore sn' (with_objectStore sn v db) = objectStore sn' db.
Proof. by destruct sn, sn'. Qed.

Lemma with_objectStore_same sn db : with_objectStore sn (objectStore sn db) db = db.
Proof. by destruct sn, db. Qed.

Lemma owned_elsewhere_true r st :
  owned_elsewhere r st = true <->
  exists k r' ced, st !! k = Some r' /\ k <> row_id r /\
                   row_cedula r' = Some ced /\ row_cedula r = Some ced.
Proof.
  unfold owned_elsewhere. split.
  - destruct (row_cedula r) as [ced|]; [|done].
    intros H. apply existsb_exists in H as ([k r'] & Hin & Hc).
    apply andb_prop in Hc as [Hk Hc]. simpl in *.
    apply list_elem_of_In, elem_of_map_to_list in Hin.
    destruct (row_cedula r') as [ced'|] eqn:E; [|done].
    apply String.eqb_eq in Hc as ->.
    apply negb_true_iff, String.eqb_neq in Hk. by exists k, r', ced.
  - intros (k & r' & ced & Hk & Hne & Hc' & Hc). rewrite Hc.
    apply existsb_exists. exists (k, r'). split.
    + by apply list_elem_of_In, elem_of_map_to_list.
    + simpl. rewrite Hc', String.eqb_refl, andb_true_r.
      by apply negb_true_iff, String.eqb_neq.
Qed.

Lemma save_eq sn r db :
  save sn r db =
  if unique_cedula sn && owned_elsewhere r (objectStore sn db)
  then (Rejected ConstraintError, db)
  else (Resolved tt, with_objectStore sn (<[row_id r := r]> (objectStore sn db)) db).
Proof. unfold save, put. by destruct (_ && _). Qed.

(** C7. In a store with the unique cedula index ([users], [passengers],
    [conductors]), saving an object whose cedula belongs to a stored object
    with another id is rejected with [ConstraintError] and leaves the
    database as it was; saving an object under the id of a stored one, no
    other object holding its cedula, resolves and replaces that object,
    every other object and every other store staying as they were. *)
Theorem save_unique_cedula sn r db :
  unique_cedula sn = true ->
  let st := objectStore sn db in
  (forall k r' ced,
     st !! k = Some r' -> k <> row_id r ->
     row_cedula r' = Some ced -> row_cedula r = Some ced ->
     save sn r db = (Rejected ConstraintError, db)) /\
  (forall old,
     st !! row_id r = Some old ->
     owned_elsewhere r st = false ->
     exists db',
       save sn r db = (Resolved tt, db') /\
       objectStore sn db' !! row_id r = Some r /\
       dom (objectStore sn db') = dom st /\
       (forall k, k <> row_id r -> objectStore sn db' !! k = st !! k) /\
       (forall sn', sn' <> sn -> objectStore sn' db' = objectStore sn' db)).
Proof.
  intros Hu. cbv zeta. split.
  - intros k r' ced Hk Hne Hc' Hc. rewrite save_eq, Hu.
    assert (owned_elsewhere r (objectStore sn db) = true) as ->; [|done].
    apply owned_elsewhere_true. by exists k, r', ced.
  - intros old Hold Hfree. rewrite save_eq, Hu, Hfree. simpl.
    eexists. split; [reflexivity|]. rewrite objectStore_with_eq.
    split; [apply lookup_insert_eq|]. split.
    + rewrite dom_insert_L. apply subseteq_union_1_L, singleton_subseteq_l.
      by apply elem_of_dom_2 in Hold.
    + split.
      * intros k Hk. by rewrite lookup_insert_ne.
      * intros sn' Hne. by rewrite objectStore_with_ne.
Qed.


(** *** Migration *)

Lemma put_all_Resolved u data st st' :
  put_all u data st = Resolved st' -> st' = put_each data st.
Proof.
  revert st. induction data as [|r data IH]; intros st H; simpl in *.
  - by injection H.
  - unfold put in H. destruct (u && owned_elsewhere r st); [done|]. by apply IH.
Qed.

Lemma put_each_union data st :
  put_each data st =
  list_to_map (reverse (map (fun r => (row_id r, r)) data)) ∪ st.
Proof.
  revert st. induction data as [|r data IH]; intros st.
  - simpl. by rewrite (left_id_L ∅ (∪)).
  - change (put_each (r :: data) st) with (put_each data (<[row_id r := r]> st)).
    rewrite IH. simpl map. rewrite reverse_cons, list_to_map_app.
    rewrite <- (assoc_L (∪)). f_equal. simpl.
    rewrite insert_empty. by rewrite <- insert_union_singleton_l.
Qed.

Lemma put_each_twice data st : put_each data (put_each data st) = put_each data st.
Proof.
  rewrite !put_each_union. rewrite (assoc_L (∪)). by rewrite (idemp_L (∪)).
Qed.

Lemma put_all_resave ls sn st st' :
  put_all (unique_cedula sn) (legacy ls sn) st = Resolved st' ->
  resave_neutral ls sn st'.
Proof.
  intros H st'' H'. apply put_all_Resolved in H, H'. subst.
  apply put_each_twice.
Qed.

Lemma saveAll_eq sn data db :
  saveAll sn data db =
  match put_all (unique_cedula sn) data (objectStore sn db) with
  | Resolved st => (Resolved tt, with_objectStore sn st db)
  | Rejected e => (Rejected e, db)
  end.
Proof.
  destruct data as [|r data]; [|done]. simpl. by rewrite with_objectStore_same.
Qed.

Lemma save_in_order_frame ls sns sn db :
  sn ∉ sns ->
  objectStore sn (save_in_order ls sns db).2 = objectStore sn db.
Proof.
  revert db. induction sns as [|sn' sns IH]; intros db Hnot; [done|].
  apply not_elem_of_cons in Hnot as [Hne Hnot].
  simpl. unfold andThen. rewrite saveAll_eq.
  destruct (put_all _ _ _) as [st|e]; [|done].
  rewrite IH by done. by apply objectStore_with_ne.
Qed.

Lemma save_in_order_stuck ls sns db :
  stuck ls sns db ->
  exists e, save_in_order ls sns db = (Rejected e, db).
Proof.
  induction sns as [|sn sns IH]; intros H; [done|].
  simpl in *. unfold andThen. rewrite saveAll_eq.
  destruct H as [[e He]|[Hn Hs]].
  - rewrite He. by exists e.
  - destruct (put_all _ _ _) as [st|e] eqn:E; [|by exists e].
    rewrite (Hn _ E), with_objectStore_same. by apply IH.
Qed.

Lemma stuck_frame ls sns sn v db :
  sn ∉ sns -> stuck ls sns db -> stuck ls sns (with_objectStore sn v db).
Proof.
  induction sns as [|sn' sns IH]; intros Hnot H; [done|].
  apply not_elem_of_cons in Hnot as [Hne Hnot]. simpl in *.
  rewrite objectStore_with_ne by done.
  destruct H as [H|[Hn Hs]]; [by left | right]. split; [done | by apply IH].
Qed.

Lemma save_in_order_Rejected ls sns db e db1 :
  NoDup sns ->
  save_in_order ls sns db = (Rejected e, db1) ->
  stuck ls sns db1.
Proof.
  revert db. induction sns as [|sn sns IH]; intros db Hnd H; [done|].
  apply NoDup_cons in Hnd as [Hnot Hnd].
  simpl in H. unfold andThen in H. rewrite saveAll_eq in H. simpl.
  destruct (put_all _ _ (objectStore sn db)) as [st|e'] eqn:E.
  - right. assert (Hst : objectStore sn db1 = st).
    { replace db1 with (save_in_order ls sns (with_objectStore sn st db)).2
        by (by rewrite H).
      rewrite save_in_order_frame by done. apply objectStore_with_eq. }
    rewrite Hst. split; [by eapply put_all_resave | by eapply IH].
  - assert (db1 = db) as -> by congruence. left. by exists e'.
Qed.

Lemma save_in_order_ok ls sns db :
  NoDup sns ->
  (forall sn, sn ∈ sns -> saves_ok ls sn (objectStore sn db)) ->
  exists db1,
    save_in_order ls sns db = (Resolved tt, db1) /\
    (forall sn, sn ∈ sns ->
       put_all (unique_cedula sn) (legacy ls sn) (objectStore sn db) =
       Resolved (objectStore sn db1)) /\
    (forall sn, sn ∉ sns -> objectStore sn db1 = objectStore sn db).
Proof.
  revert db. induction sns as [|sn sns IH]; intros db Hnd Hok.
  - exists db. split; [done|]. split; [|done]. intros sn H. by apply elem_of_nil in H.
  - apply NoDup_cons in Hnd as [Hnot Hnd].
    destruct (Hok sn) as [st Hst]; [by left|].
    destruct (IH (with_objectStore sn st db) Hnd) as (db1 & Hrun & Hin & Hout).
    { intros sn' Hin. rewrite objectStore_with_ne by (by intros ->).
      apply Hok. by right. }
    exists db1. split.
    + simpl. unfold andThen. by rewrite saveAll_eq, Hst.
    + split.
      * intros sn' [->|Hin']%elem_of_cons.
        -- rewrite Hst, (Hout sn Hnot). by rewrite objectStore_with_eq.
        -- rewrite <- (Hin sn' Hin'). rewrite objectStore_with_ne; [done|by intros ->].
      * intros sn' [Hne Hnot']%not_elem_of_cons.
        rewrite (Hout sn' Hnot'). by apply objectStore_with_ne.
Qed.

Lemma save_in_order_fail ls sns db sn e :
  NoDup sns ->
  sn ∈ sns ->
  put_all (unique_cedula sn) (legacy ls sn) (objectStore sn db) = Rejected e ->
  exists e' db1, save_in_order ls sns db = (Rejected e', db1).
Proof.
  revert db. induction sns as [|sn' sns IH]; intros db Hnd Hin Hrej.
  - by apply elem_of_nil in Hin.
  - apply NoDup_cons in Hnd as [Hnot Hnd].
    simpl. unfold andThen. rewrite saveAll_eq.
    destruct (put_all _ _ (objectStore sn' db)) as [st|e0] eqn:E; [|by eexists _, _].
    apply elem_of_cons in Hin as [->|Hin]; [congruence|].
    apply IH; [done | done |].
    rewrite objectStore_with_ne; [done | by intros ->].
Qed.

Lemma migration_order_NoDup : NoDup migration_order.
Proof.
  unfold migration_order.
  repeat (apply NoDup_cons; split;
          [intros H; repeat (apply elem_of_cons in H as [H|H]; [discriminate|]);
           by apply elem_of_nil in H|]).
  apply NoDup_nil_2.
Qed.

Lemma migration_order_all sn : sn ∈ migration_order.
Proof. unfold migration_order. destruct sn; repeat constructor. Qed.

Lemma whenNonEmpty_saveAll sn xs : whenNonEmpty xs (saveAll sn) = saveAll sn xs.
Proof. by destruct xs. Qed.

Lemma migrate_eq ls db :
  migrateFromLocalStorage ls db =
  if migrated ls then (ls, db)
  else match save_in_order ls migration_order db with
       | (Resolved _, db') => (mkLocalStorage (Some "true") (legacy ls), db')
       | (Rejected _, db') => (ls, db')
       end.
Proof.
  unfold migrateFromLocalStorage, migrated. destruct (truthy _); [done|].
  cbv zeta. unfold saveUsers, savePassengers, saveConductors, saveTrips,
    saveSignatures, saveConductorCredentials.
  rewrite !whenNonEmpty_saveAll. unfold migration_order, save_in_order, andThen.
  repeat match goal with
         | |- context [saveAll ?a ?b ?c] =>
             destruct (saveAll a b c) as [[[]|?] ?]; try reflexivity
         end.
Qed.


(** C6. With the marker set the migration does nothing.  With the marker
    unset, the marker is set afterwards exactly when the save of every
    legacy collection succeeds, and then every store holds the result of its
    save; if the save of some collection is rejected the marker stays unset.
    Running the migration a second time leaves local storage and database
    exactly as the first run left them, so every store keeps the same set
    of ids. *)
Theorem migrate_idempotent :
  (forall ls db, migrated ls = true -> migrateFromLocalStorage ls db = (ls, db)) /\
  (forall ls db,
     migrated ls = false ->
     let ls' := (migrateFromLocalStorage ls db).1 in
     let db' := (migrateFromLocalStorage ls db).2 in
     (migrated ls' = true <-> forall sn, saves_ok ls sn (objectStore sn db)) /\
     (migrated ls' = true ->
      forall sn, put_all (unique_cedula sn) (legacy ls sn) (objectStore sn db) =
                 Resolved (objectStore sn db')) /\
     (migrated ls' = false -> ls' = ls)) /\
  (forall ls db,
     let once := migrateFromLocalStorage ls db in
     let twice := migrateFromLocalStorage once.1 once.2 in
     twice = once /\
     forall sn, dom (objectStore sn twice.2) = dom (objectStore sn once.2)).
Proof.
  split; [|split].
  - intros ls db H. by rewrite migrate_eq, H.
  - intros ls db H. cbv zeta. rewrite migrate_eq, H.
    destruct (save_in_order ls migration_order db) as [[[]|e] db1] eqn:E;
      cbn [fst snd].
    + assert (Hall : forall sn,
                put_all (unique_cedula sn) (legacy ls sn) (objectStore sn db) =
                Resolved (objectStore sn db1)).
      { intros sn.
        assert (Hok : forall sn', sn' ∈ migration_order ->
                        saves_ok ls sn' (objectStore sn' db)).
        { intros sn' _.
          destruct (put_all (unique_cedula sn') (legacy ls sn') (objectStore sn' db))
            as [st|e] eqn:E'; [by exists st|].
          destruct (save_in_order_fail ls migration_order db sn' e
                      migration_order_NoDup (migration_order_all sn') E')
            as (e' & db2 & H'). congruence. }
        destruct (save_in_order_ok ls migration_order db migration_order_NoDup Hok)
          as (db2 & Hrun & Hin & _).
        assert (db2 = db1) as -> by congruence.
        apply Hin, migration_order_all. }
      split; [|split].
      * split; [|done]. intros _ sn. eexists. apply Hall.
      * intros _. exact Hall.
      * intros Hf. discriminate Hf.
    + rewrite H. split; [|split; [done|done]].
      split; [done|]. intros Hok. exfalso.
      destruct (save_in_order_ok ls migration_order db migration_order_NoDup)
        as (db2 & Hrun & _); [by intros sn _|]. congruence.
  - intros ls db. cbv zeta.
    assert (Heq : migrateFromLocalStorage (migrateFromLocalStorage ls db).1
                    (migrateFromLocalStorage ls db).2 =
                  migrateFromLocalStorage ls db); [|by rewrite Heq].
    rewrite (migrate_eq ls db). destruct (migrated ls) eqn:H.
    + cbn [fst snd]. by rewrite migrate_eq, H.
    + destruct (save_in_order ls migration_order db) as [[[]|e] db1] eqn:E;
        cbn [fst snd].
      * rewrite migrate_eq. reflexivity.
      * rewrite migrate_eq, H.
        apply save_in_order_Rejected in E; [|apply migration_order_NoDup].
        apply save_in_order_stuck in E as [e' ->]. done.
Qed.


Lemma save_unique_cedula_witness :
  save passengers row_b db_with_a = (Rejected ConstraintError, db_with_a).
Proof.
  destruct (save_unique_cedula passengers row_b db_with_a) as [Hdup _];
    [reflexivity|].
  apply (Hdup "p1" row_a "12345678"); [reflexivity | discriminate | reflexivity
                                      | reflexivity].
Defined.

Lemma migrate_idempotent_witness :
  let marked := mkLocalStorage (Some "true") (legacy legacy_conflict) in
  migrateFromLocalStorage marked empty_db = (marked, empty_db) /\
  migrated (migrateFromLocalStorage legacy_clean empty_db).1 = true.
Proof.
  cbv zeta. destruct migrate_idempotent as (Hmarked & Hunmarked & _). split.
  - by apply Hmarked.
  - destruct (Hunmarked legacy_clean empty_db) as ([_ Hset] & _); [reflexivity|].
    apply Hset. intros sn. destruct sn; eexists; by vm_compute.
Defined.

(** Two legacy passengers with one cedula: the users are saved, the save of
    the passengers is rejected as a whole, and the marker stays unset; the
    next start does the same again. *)
Example migrate_conflict :
  let once := migrateFromLocalStorage legacy_conflict empty_db in
  migration_completed once.1 = None /\
  dom (objectStore users once.2) = {[ "1" ]} /\
  objectStore passengers once.2 = ∅ /\
  migrateFromLocalStorage once.1 once.2 = once.
Proof.
  cbv zeta. split; [by vm_compute|]. split; [by vm_compute|].
  split; [by vm_compute|]. by vm_compute.
Qed.

End DurableStore.

(** ** The passenger import *)

Section ImportedPassengers.
Import PassengerImport.

Variable trim : string -> string.
Variable generateQRCode : QRData -> option string.
Variable isoAt : nat -> string.
Variable uuidAt : nat -> string.

Local Abbreviation step := (process_row trim generateQRCode isoAt uuidAt).
Local Abbreviation process := (processPassengersFromImport trim generateQRCode isoAt uuidAt).

Lemma process_row_lacking acc row : lacking trim row -> step acc row = acc.
Proof.
  intros [H|H]; unfold process_row; rewrite H; [done|].
  by rewrite orb_true_r.
Qed.

Lemma process_row_invariant stored acc row :
  import_invariant stored acc -> import_invariant stored (step acc row).
Proof.
  intros (Hnd & Hin & Hsub). unfold process_row.
  destruct (cell_truthy (name_of row)) eqn:Hname; [|done].
  destruct (truthy (cedula_of trim row)) eqn:Hced; [|done]. simpl.
  case_bool_decide as Hseen; [done|].
  destruct (generateQRCode _) as [qr|]; [|done].
  split; [|split]; simpl.
  - rewrite map_app. simpl. apply NoDup_app. split; [done|]. split.
    + intros c Hc ->%list_elem_of_singleton. apply Hseen.
      apply list_elem_of_fmap in Hc as (p & -> & Hp). by apply Hin.
    + apply NoDup_singleton.
  - intros p [Hp|Hp]%elem_of_app.
    + destruct (Hin p Hp) as (H1 & H2 & H3 & H4). repeat split; try done.
      by apply elem_of_union_r.
    + apply list_elem_of_singleton in Hp as ->. simpl. repeat split; try done.
      * apply elem_of_union_l. by apply elem_of_singleton.
      * intros Hs. apply Hseen. by apply Hsub.
  - intros c Hc. apply elem_of_union_r. by apply Hsub.
Qed.

Lemma foldl_invariant stored data acc :
  import_invariant stored acc -> import_invariant stored (foldl step acc data).
Proof.
  revert acc. induction data as [|row data IH]; intros acc H; [done|].
  simpl. apply IH. by apply process_row_invariant.
Qed.

(** C9. Whatever the sheet and the stored passengers, the passengers that
    [processPassengersFromImport] returns have pairwise different cedulas,
    none of them the cedula of a stored passenger, each with a name and a
    cedula; and a row that lacks a name or a cedula adds nothing: the result
    is the one of the sheet without that row. *)
Theorem import_distinct_cedulas (existingPassengers : list Passenger)
    (data : list (gmap string Cell)) :
  let result := process existingPassengers data in
  NoDup (map np_cedula result) /\
  (forall p q, p ∈ result -> q ∈ existingPassengers -> np_cedula p <> p_cedula q) /\
  (forall p, p ∈ result ->
     cell_truthy (np_name p) = true /\ truthy (np_cedula p) = true) /\
  (forall before row after,
     data = (before ++ row :: after)%list ->
     lacking trim row ->
     result = process existingPassengers (before ++ after)).
Proof.
  cbv zeta. unfold processPassengersFromImport.
  set (stored := list_to_set (map p_cedula existingPassengers) : gset string).
  assert (Hinv : import_invariant stored (foldl step (mkLoop stored [] 0 0) data)).
  { apply foldl_invariant. split; [apply NoDup_nil_2|]. split; [|done].
    intros p Hp. by apply elem_of_nil in Hp. }
  destruct Hinv as (Hnd & Hin & _).
  split; [exact Hnd|]. split; [|split].
  - intros p q Hp Hq Heq. destruct (Hin p Hp) as (_ & Hnot & _).
    apply Hnot. unfold stored. apply elem_of_list_to_set.
    apply list_elem_of_fmap. by exists q.
  - intros p Hp. by destruct (Hin p Hp) as (_ & _ & H1 & H2).
  - intros before row after -> Hlack.
    rewrite !foldl_app. simpl. by rewrite process_row_lacking.
Qed.

End ImportedPassengers.

Lemma import_distinct_cedulas_witness :
  let result :=
    PassengerImport.processPassengersFromImport sample_trim sample_qr sample_iso
      sample_uuid [sample_passenger] sample_rows in
  map PassengerImport.np_cedula result = ["300"; "500"] /\
  NoDup (map PassengerImport.np_cedula result) /\
  result =
    PassengerImport.processPassengersFromImport sample_trim sample_qr sample_iso
      sample_uuid [sample_passenger] (take 2 sample_rows ++ drop 3 sample_rows).
Proof.
  cbv zeta.
  destruct (import_distinct_cedulas sample_trim sample_qr sample_iso sample_uuid
              [sample_passenger] sample_rows) as (Hnd & _ & _ & Hskip).
  split; [by vm_compute|]. split; [exact Hnd|].
  apply (Hskip (take 2 sample_rows)
           {[ "Cedula" := PassengerImport.CStr "400" ]} (drop 3 sample_rows));
    [reflexivity | left; by vm_compute].
Defined.


(** * Further properties *)

Lemma find_none_all {A} (f : A -> bool) (l : list A) :
  (forall x, x ∈ l -> f x = false) -> List.find f l = None.
Proof.
  induction l as [|x l IH]; intros H; [done|]. simpl.
  rewrite (H x) by left. apply IH. intros y Hy. apply H. by right.
Qed.

(** ** Reading, deleting and clearing the durable store *)

Section StoreOperations.
Import IndexedDB.

Lemma put_keyed u r st st' : keyed st -> put u r st = Resolved st' -> keyed st'.
Proof.
  unfold put. intros Hk H. destruct (u && owned_elsewhere r st); [done|].
  injection H as <-. intros k r' Hl.
  destruct (decide (k = row_id r)) as [->|Hne].
  - rewrite lookup_insert_eq in Hl. by injection Hl as <-.
  - rewrite lookup_insert_ne in Hl by done. by apply Hk.
Qed.

Lemma put_each_keyed data st : keyed st -> keyed (put_each data st).
Proof.
  revert st. induction data as [|r data IH]; intros st Hk; [done|].
  change (put_each (r :: data) st) with (put_each data (<[row_id r := r]> st)).
  apply IH. intros k r' Hl. destruct (decide (k = row_id r)) as [->|Hne].
  - rewrite lookup_insert_eq in Hl. by injection Hl as <-.
  - rewrite lookup_insert_ne in Hl by done. by apply Hk.
Qed.

Lemma put_each_lookup data st k :
  put_each data st !! k =
  match last_with_id k data with
  | Some r => Some r
  | None => st !! k
  end.
Proof.
  revert st. induction data as [|r data IH]; intros st; [done|].
  change (put_each (r :: data) st) with (put_each data (<[row_id r := r]> st)).
  rewrite IH. unfold last_with_id. simpl List.filter.
  destruct (String.eqb (row_id r) k) eqn:E.
  - apply String.eqb_eq in E. subst k.
    destruct (List.filter _ data) as [|x l] eqn:F.
    + simpl. apply lookup_insert_eq.
    + change (last (r :: x :: l)) with (last (x :: l)).
      destruct (last (x :: l)) eqn:L; [done|]. by apply last_None in L.
  - apply String.eqb_neq in E.
    destruct (last _); [done|]. by apply lookup_insert_ne.
Qed.

(** X1. A save that resolves can be read back: [getById] returns the saved
    object under its id, returns for every other id what it returned
    before, and the other stores are as they were. *)
Theorem save_then_getById sn r db db' :
  save sn r db = (Resolved tt, db') ->
  getById sn (row_id r) db' = (Resolved (Some r), db') /\
  (forall id, id <> row_id r ->
     settled_value (getById sn id db') = settled_value (getById sn id db)) /\
  (forall sn', sn' <> sn -> objectStore sn' db' = objectStore sn' db).
Proof.
  rewrite save_eq. destruct (_ && _); [done|]. intros [= <-].
  unfold getById, settled_value. cbn [fst]. rewrite objectStore_with_eq.
  split; [by rewrite lookup_insert_eq|]. split.
  - intros id Hne. by rewrite lookup_insert_ne.
  - intros sn' Hne. by rewrite objectStore_with_ne.
Qed.

Lemma save_then_getById_witness :
  getById passengers "p3" (snd (save passengers row_c db_with_a))
  = (Resolved (Some row_c), snd (save passengers row_c db_with_a)) /\
  settled_value (getById passengers "p1" (snd (save passengers row_c db_with_a)))
  = Some (Some row_a).
Proof.
  destruct (save_then_getById passengers row_c db_with_a
              (snd (save passengers row_c db_with_a))) as (Hget & Hother & _).
  - by vm_compute.
  - split; [exact Hget|]. rewrite (Hother "p1"); [by vm_compute | discriminate].
Defined.

(** X2. [delete] always resolves; afterwards [getById] finds nothing under
    the id, finds under every other id what it found before, and the other
    stores are as they were.  Deleting an id that is not stored leaves the
    database as it was. *)
Theorem delete_then_getById sn id db :
  let db' := snd (delete_ sn id db) in
  fst (delete_ sn id db) = Resolved tt /\
  getById sn id db' = (Resolved None, db') /\
  (forall k, k <> id ->
     settled_value (getById sn k db') = settled_value (getById sn k db)) /\
  (forall sn', sn' <> sn -> objectStore sn' db' = objectStore sn' db) /\
  (objectStore sn db !! id = None -> db' = db).
Proof.
  cbv zeta. unfold delete_, getById, settled_value. cbn [fst snd].
  rewrite objectStore_with_eq. split; [done|].
  split; [by rewrite lookup_delete_eq|]. split.
  - intros k Hne. by rewrite lookup_delete_ne.
  - split.
    + intros sn' Hne. by rewrite objectStore_with_ne.
    + intros Hnone. rewrite delete_id by done. apply with_objectStore_same.
Qed.

Lemma put_all_cases u data st :
  put_all u data st = Resolved (put_each data st) \/
  (u = true /\ put_all u data st = Rejected ConstraintError).
Proof.
  revert st. induction data as [|r data IH]; intros st; [by left|].
  simpl. unfold put. destruct u; simpl.
  - destruct (owned_elsewhere r st); [by right|]. apply IH.
  - apply IH.
Qed.

(** X3. [saveAll] is all or nothing.  Either it is rejected with
    [ConstraintError], which happens only in a store with the unique cedula
    index, and the database is as it was; or it resolves, and then the store
    holds under every id the last object of the data with that id, or what
    it held before when the data has none, the other stores being as they
    were. *)
Theorem saveAll_all_or_nothing sn data db :
  (unique_cedula sn = true /\ saveAll sn data db = (Rejected ConstraintError, db)) \/
  (exists db',
     saveAll sn data db = (Resolved tt, db') /\
     (forall k, objectStore sn db' !! k =
                match last_with_id k data with
                | Some r => Some r
                | None => objectStore sn db !! k
                end) /\
     (forall sn', sn' <> sn -> objectStore sn' db' = objectStore sn' db)).
Proof.
  rewrite saveAll_eq.
  destruct (put_all_cases (unique_cedula sn) data (objectStore sn db)) as [->|[Hu ->]].
  - right. eexists. split; [reflexivity|]. rewrite objectStore_with_eq. split.
    + intros k. apply put_each_lookup.
    + intros sn' Hne. by rewrite objectStore_with_ne.
  - by left.
Qed.




Lemma keyed_db_with_a_passengers : keyed (objectStore passengers db_with_a).
Proof.
  intros k r H. change (objectStore passengers db_with_a) with
    ({[ "p1" := row_a ]} : gmap string Row) in H.
  apply lookup_singleton_Some in H as [<- <-]. done.
Qed.


Lemma getAll_empty sn db :
  objectStore sn db = ∅ -> getAll sn db = (Resolved [], db).
Proof. intros H. unfold getAll. rewrite H, map_to_list_empty. reflexivity. Qed.

Lemma clear_eq sn db : clear sn db = (Resolved tt, with_objectStore sn ∅ db).
Proof. reflexivity. Qed.

(** X5. [clearAll] always resolves and leaves every store empty, so that
    [getAll] returns the empty array for each of them; [clearPassengers]
    always resolves, empties the passengers store and leaves the other
    stores as they were. *)
Theorem clear_empties db :
  (fst (clearAll db) = Resolved tt /\
   forall sn, getAll sn (snd (clearAll db)) = (Resolved [], snd (clearAll db))) /\
  (fst (clearPassengers db) = Resolved tt /\
   getAll passengers (snd (clearPassengers db))
   = (Resolved [], snd (clearPassengers db)) /\
   forall sn, sn <> passengers ->
     objectStore sn (snd (clearPassengers db)) = objectStore sn db).
Proof.
  split.
  - split; [reflexivity|]. intros sn. apply getAll_empty. by destruct sn.
  - split; [reflexivity|]. split.
    + by apply getAll_empty.
    + intros sn Hne. by destruct sn.
Qed.

Lemma cedulas_free_cons r data st :
  cedulas_free (r :: data) st ->
  owned_elsewhere r st = false /\ cedulas_free data (<[row_id r := r]> st).
Proof.
  intros [Hnd Hheld]. split.
  - apply not_true_iff_false. intros H.
    apply owned_elsewhere_true in H as (k & r' & ced & Hk & Hne & Hc' & Hc).
    apply Hne. eapply Hheld; [left| | |]; eauto.
  - split.
    + simpl in Hnd. destruct (row_cedula r); [|done].
      by apply NoDup_cons in Hnd as [_ ?].
    + intros x k r' ced Hx Hk Hc' Hc.
      destruct (decide (k = row_id r)) as [->|Hne].
      * rewrite lookup_insert_eq in Hk. injection Hk as <-.
        exfalso. simpl in Hnd. rewrite Hc' in Hnd.
        apply NoDup_cons in Hnd as [Hnot _]. apply Hnot.
        apply list_elem_of_omap. by exists x.
      * rewrite lookup_insert_ne in Hk by done.
        eapply Hheld; [right| | |]; eauto.
Qed.

Lemma put_all_cedulas_free u data st :
  cedulas_free data st -> put_all u data st = Resolved (put_each data st).
Proof.
  revert st. induction data as [|r data IH]; intros st H; [done|].
  apply cedulas_free_cons in H as [Hfree H].
  simpl. unfold put. rewrite Hfree, andb_false_r. by apply IH.
Qed.

(** X6. [saveAll] is not rejected when the cedulas of the data are pairwise
    different and no stored object under another id holds one of them: it
    resolves, and every object of the data can then be read back under its
    id, unless a later object of the data has the same id. *)
Theorem saveAll_cedulas_free sn data db :
  cedulas_free data (objectStore sn db) ->
  exists db',
    saveAll sn data db = (Resolved tt, db') /\
    forall r, r ∈ data ->
      exists r', getById sn (row_id r) db' = (Resolved (Some r'), db') /\
                 last_with_id (row_id r) data = Some r'.
Proof.
  intros H. rewrite saveAll_eq, (put_all_cedulas_free _ _ _ H).
  eexists. split; [reflexivity|]. intros r Hr.
  unfold getById. rewrite objectStore_with_eq, put_each_lookup.
  destruct (last_with_id (row_id r) data) as [r'|] eqn:L; [by exists r'|].
  exfalso. unfold last_with_id in L. apply last_None in L.
  assert (Hin : r ∈ List.filter (fun x => String.eqb (row_id x) (row_id r)) data).
  { apply list_elem_of_In, filter_In. split; [by apply list_elem_of_In|].
    apply String.eqb_refl. }
  rewrite L in Hin. by apply elem_of_nil in Hin.
Qed.

Lemma saveAll_cedulas_free_witness :
  exists db',
    saveAll passengers [row_a; row_c] db_with_a = (Resolved tt, db') /\
    getById passengers "p3" db' = (Resolved (Some row_c), db').
Proof.
  destruct (saveAll_cedulas_free passengers [row_a; row_c] db_with_a)
    as (db' & Hsave & Hread).
  - split.
    + apply (bool_decide_unpack _). by vm_compute.
    + intros r k r' ced Hr Hk Hc' Hc.
      change (objectStore passengers db_with_a) with
        ({[ "p1" := row_a ]} : gmap string Row) in Hk.
      apply lookup_singleton_Some in Hk as [<- <-].
      apply elem_of_cons in Hr as [->|Hr]; [done|].
      apply list_elem_of_singleton in Hr as ->.
      change (Some "12345678" = Some ced) in Hc'.
      change (Some "87654321" = Some ced) in Hc.
      injection Hc' as <-. discriminate Hc.
  - exists db'. split; [exact Hsave|].
    destruct (Hread row_c) as (r' & Hget & Hlast).
    + right. left.
    + assert (r' = row_c) as ->; [|exact Hget].
      change (Some row_c = Some r') in Hlast. by injection Hlast.
Defined.

Lemma keyed_with sn st db :
  keyed_db db -> keyed st -> keyed_db (with_objectStore sn st db).
Proof.
  intros Hdb Hst sn'.
  assert (Hcases : sn = sn' \/ sn <> sn') by (destruct sn, sn'; (by left) || (by right)).
  destruct Hcases as [<-|Hne].
  - by rewrite objectStore_with_eq.
  - rewrite objectStore_with_ne by done. apply Hdb.
Qed.

Lemma keyed_delete id (st : gmap string Row) : keyed st -> keyed (delete id st).
Proof. intros Hk k r H. apply lookup_delete_Some in H as [_ H]. by apply Hk. Qed.

Lemma keyed_empty_store : keyed (∅ : gmap string Row).
Proof. intros k r H. by rewrite lookup_empty in H. Qed.

Lemma saveAll_keyed sn data db : keyed_db db -> keyed_db (snd (saveAll sn data db)).
Proof.
  intros Hdb. rewrite saveAll_eq.
  destruct (put_all_cases (unique_cedula sn) data (objectStore sn db)) as [->|[_ ->]];
    [|done].
  apply keyed_with; [done|]. apply put_each_keyed, Hdb.
Qed.

Lemma save_in_order_keyed ls sns db :
  keyed_db db -> keyed_db (snd (save_in_order ls sns db)).
Proof.
  revert db. induction sns as [|sn sns IH]; intros db Hdb; [done|].
  simpl. unfold andThen.
  pose proof (saveAll_keyed sn (legacy ls sn) db Hdb) as H.
  destruct (saveAll sn (legacy ls sn) db) as [[[]|e] db1]; cbn [snd] in H; [|done].
  by apply IH.
Qed.

(** X22. Every operation of the service keeps each object under its own
    id: if all the stores do so before [save], [saveAll], [delete],
    [clearPassengers], [clearAll] or [migrateFromLocalStorage], they do so
    afterwards, whether the operation resolves or is rejected. *)
Theorem keyed_kept db :
  keyed_db db ->
  (forall sn r, keyed_db (snd (save sn r db))) /\
  (forall sn data, keyed_db (snd (saveAll sn data db))) /\
  (forall sn id, keyed_db (snd (delete_ sn id db))) /\
  keyed_db (snd (clearPassengers db)) /\
  keyed_db (snd (clearAll db)) /\
  (forall ls, keyed_db (snd (migrateFromLocalStorage ls db))).
Proof.
  intros Hdb. split; [|split; [|split; [|split; [|split]]]].
  - intros sn r. rewrite save_eq. destruct (_ && _); [done|]. cbn [snd].
    apply keyed_with; [done|]. apply (put_each_keyed [r]), Hdb.
  - intros sn data. by apply saveAll_keyed.
  - intros sn id. apply keyed_with; [done|]. apply keyed_delete, Hdb.
  - apply keyed_with; [done|]. apply keyed_empty_store.
  - intros sn. destruct sn; apply keyed_empty_store.
  - intros ls. rewrite migrate_eq. destruct (migrated ls); [done|].
    pose proof (save_in_order_keyed ls migration_order db Hdb) as H.
    by destruct (save_in_order ls migration_order db) as [[[]|e] db1].
Qed.

Lemma keyed_db_with_a : keyed_db db_with_a.
Proof.
  intros sn. destruct sn;
    [|apply keyed_db_with_a_passengers|..]; apply keyed_empty_store.
Qed.

Lemma keyed_kept_witness :
  keyed_db (snd (saveAll passengers [row_c; row_b] db_with_a)) /\
  keyed_db (snd (migrateFromLocalStorage legacy_clean db_with_a)).
Proof.
  destruct (keyed_kept db_with_a keyed_db_with_a) as (_ & Hall & _ & _ & _ & Hmig).
  split; [apply Hall | apply Hmig].
Defined.

(** X23. A migration without cedula conflicts copies every legacy record.
    When the marker is not set and, store by store, the cedulas of the
    legacy records are pairwise different and held by no stored object under
    another id, [migrateFromLocalStorage] sets the marker, keeps the legacy
    collections in localStorage, and every store then holds under each id
    the last legacy record with that id, and what it held before under the
    other ids. *)
Theorem migrate_copies_all ls db :
  migrated ls = false ->
  (forall sn, cedulas_free (legacy ls sn) (objectStore sn db)) ->
  let ls' := fst (migrateFromLocalStorage ls db) in
  let db' := snd (migrateFromLocalStorage ls db) in
  migrated ls' = true /\
  legacy ls' = legacy ls /\
  forall sn k,
    objectStore sn db' !! k =
    match last_with_id k (legacy ls sn) with
    | Some r => Some r
    | None => objectStore sn db !! k
    end.
Proof.
  intros Hm Hfree. cbv zeta. rewrite migrate_eq, Hm.
  destruct (save_in_order_ok ls migration_order db migration_order_NoDup)
    as (db1 & Hrun & Hin & _).
  { intros sn _. eexists. by apply put_all_cedulas_free. }
  rewrite Hrun. cbn [fst snd]. split; [done|]. split; [done|].
  intros sn k. specialize (Hin sn (migration_order_all sn)).
  rewrite (put_all_cedulas_free _ _ _ (Hfree sn)) in Hin.
  injection Hin as <-. apply put_each_lookup.
Qed.

Lemma cedulas_free_empty data :
  NoDup (omap row_cedula data) -> cedulas_free data ∅.
Proof.
  intros Hnd. split; [done|]. intros r k r' ced _ H. by rewrite lookup_empty in H.
Qed.

Lemma migrate_copies_all_witness :
  migrated (fst (migrateFromLocalStorage legacy_clean empty_db)) = true /\
  objectStore passengers (snd (migrateFromLocalStorage legacy_clean empty_db)) !! "p3"
  = Some row_c.
Proof.
  destruct (migrate_copies_all legacy_clean empty_db) as (Hm & _ & Hl).
  - reflexivity.
  - intros sn. destruct sn; apply cedulas_free_empty;
      apply (bool_decide_unpack _); by vm_compute.
  - split; [exact Hm|]. rewrite Hl. reflexivity.
Defined.

End StoreOperations.

(** ** The storage facade and the pages *)

Section Facade.
Import IndexedDB.

Lemma foldl_delete_lookup (keys : list string) (ls : gmap string string) k :
  foldl (fun ls key => delete key ls) ls keys !! k =
  if bool_decide (k ∈ keys) then None else ls !! k.
Proof.
  revert ls. induction keys as [|key keys IH]; intros ls; [done|].
  simpl. rewrite IH. case_bool_decide as H1; case_bool_decide as H2; try done.
  - exfalso. apply H2. by right.
  - apply elem_of_cons in H2 as [->|H2]; [|done]. apply lookup_delete_eq.
  - apply lookup_delete_ne. intros ->. apply H2. by left.
Qed.

Lemma groupStorageKey_not_facade_key cid ruta sh d :
  ScanQR.groupStorageKey cid ruta sh d ∉ Storage.STORAGE_KEYS.
Proof.
  unfold ScanQR.groupStorageKey, Storage.STORAGE_KEYS. intros H.
  repeat (apply elem_of_cons in H as [H|H]; [cbn in H; discriminate H|]).
  by apply elem_of_nil in H.
Qed.

(** X7. [storage.clearAll] removes the seven keys of the facade and no
    other key of localStorage: the marker of the migration and every group
    binding of the scanning page stay as they were. *)
Theorem storage_clearAll_keeps (ls : gmap string string) :
  (forall k, k ∈ Storage.STORAGE_KEYS -> Storage.clearAll ls !! k = None) /\
  (forall k, k ∉ Storage.STORAGE_KEYS -> Storage.clearAll ls !! k = ls !! k) /\
  Storage.clearAll ls !! "transport_migration_completed"
  = ls !! "transport_migration_completed" /\
  (forall cid ruta sh d,
     Storage.clearAll ls !! ScanQR.groupStorageKey cid ruta sh d
     = ls !! ScanQR.groupStorageKey cid ruta sh d).
Proof.
  unfold Storage.clearAll. split; [|split; [|split]].
  - intros k Hk. rewrite foldl_delete_lookup. by rewrite bool_decide_eq_true_2.
  - intros k Hk. rewrite foldl_delete_lookup. by rewrite bool_decide_eq_false_2.
  - rewrite foldl_delete_lookup. rewrite bool_decide_eq_false_2; [done|].
    intros H. unfold Storage.STORAGE_KEYS in H.
    repeat (apply elem_of_cons in H as [H|H]; [discriminate H|]).
    by apply elem_of_nil in H.
  - intros cid ruta sh d. rewrite foldl_delete_lookup.
    rewrite bool_decide_eq_false_2; [done|]. apply groupStorageKey_not_facade_key.
Qed.

Lemma setCollection_legacy sn rows ls sn' :
  legacy (Storage.setCollection sn rows ls) sn' =
  if Storage.storeName_eqb sn' sn then rows else legacy ls sn'.
Proof. reflexivity. Qed.

Lemma saveUsers_eq us ls db :
  Storage.saveUsers us (ls, db) =
  (Storage.Fulfilled tt,
   (Storage.setCollection users us ls, snd (IndexedDB.saveUsers us db))).
Proof.
  unfold Storage.saveUsers. cbn [fst snd].
  by destruct (IndexedDB.saveUsers us db) as [[?|?] ?].
Qed.


(** The two copies can part: the durable store refuses a user whose cedula
    another user holds, and localStorage has it all the same. *)
Example saveUsers_copies_part :
  let w := Storage.saveUsers [mkRow "u9" (Some "V-1") "Luz"] (sample_ls, db_with_users) in
  fst w = Storage.Fulfilled tt /\
  legacy (fst (snd w)) users = [mkRow "u9" (Some "V-1") "Luz"] /\
  snd (snd w) = db_with_users.
Proof. cbv zeta. by vm_compute. Qed.

Lemma filter_without_id id (l : list Row) :
  last_with_id id (List.filter (fun u => negb (String.eqb (row_id u) id)) l) = None.
Proof.
  unfold last_with_id. apply last_None.
  induction l as [|r l IH]; [done|]. simpl.
  destruct (String.eqb (row_id r) id) eqn:E; simpl; [done|]. by rewrite E.
Qed.

Lemma saveAll_without_id sn id (l : list Row) db :
  let data := List.filter (fun u => negb (String.eqb (row_id u) id)) l in
  objectStore sn (snd (saveAll sn data db)) !! id = objectStore sn db !! id /\
  (keyed (objectStore sn db) -> keyed (objectStore sn (snd (saveAll sn data db)))).
Proof.
  cbv zeta. rewrite saveAll_eq.
  destruct (put_all_cases (unique_cedula sn)
              (List.filter (fun u => negb (String.eqb (row_id u) id)) l)
              (objectStore sn db)) as [->|[_ ->]]; cbn [snd].
  - rewrite objectStore_with_eq. split.
    + by rewrite put_each_lookup, filter_without_id.
    + apply put_each_keyed.
  - done.
Qed.

Lemma getAll_elem_of sn db r :
  keyed (objectStore sn db) ->
  objectStore sn db !! row_id r = Some r ->
  exists l, getAll sn db = (Resolved l, db) /\ r ∈ l.
Proof.
  intros Hk Hr. eexists. split; [reflexivity|].
  apply list_elem_of_fmap. exists (row_id r, r). split; [done|].
  rewrite merge_sort_Permutation. by apply elem_of_map_to_list.
Qed.

Lemma filter_not_id id (l : list Row) u :
  u ∈ List.filter (fun u => negb (String.eqb (row_id u) id)) l -> row_id u <> id.
Proof.
  intros H. apply list_elem_of_In, filter_In in H as [_ H].
  by apply negb_true_iff, String.eqb_neq in H.
Qed.

(** X9. A user removed with [handleDelete] of the users page comes back.
    The page and localStorage drop it, but the durable store keeps it: the
    first [storage.getUsers] after the removal still returns the list
    without it, then overwrites localStorage with the users of the durable
    store, and the next [storage.getUsers] returns the removed user
    again. *)
Theorem deleted_user_returns id r us ls db :
  keyed (objectStore users db) ->
  objectStore users db !! id = Some r ->
  let w1 := Users.handleDelete id true (us, (ls, db)) in
  let first := Storage.getUsers (snd w1) in
  let second := Storage.getUsers (snd first) in
  (forall u, u ∈ fst w1 -> row_id u <> id) /\
  fst first = fst w1 /\
  objectStore users (snd (snd w1)) !! id = Some r /\
  r ∈ fst second.
Proof.
  intros Hk Hr. cbv zeta. unfold Users.handleDelete. cbn [fst snd].
  rewrite saveUsers_eq. cbn [snd].
  set (data := List.filter (fun u => negb (String.eqb (row_id u) id)) us).
  destruct (saveAll_without_id users id us db) as [Hid Hk1].
  fold data in Hid, Hk1. unfold IndexedDB.saveUsers.
  set (db1 := snd (saveAll users data db)) in *.
  specialize (Hk1 Hk). rewrite Hr in Hid.
  assert (Hrid : row_id r = id) by (by apply Hk).
  destruct (getAll_elem_of users db1 r Hk1) as (l & Hget & Hin);
    [by rewrite Hrid|].
  split; [apply filter_not_id|]. split; [|split; [exact Hid|]].
  - unfold Storage.getUsers. cbn [fst snd]. unfold IndexedDB.getUsers.
    rewrite Hget. by destruct l.
  - unfold Storage.getUsers at 2. cbn [fst snd]. unfold IndexedDB.getUsers.
    rewrite Hget. destruct l as [|x l]; [by apply elem_of_nil in Hin|].
    cbn [fst snd]. unfold Storage.getUsers. cbn [fst snd].
    unfold IndexedDB.getUsers. rewrite Hget. cbn [fst]. exact Hin.
Qed.

Lemma keyed_db_with_users : keyed (objectStore users db_with_users).
Proof.
  intros k r H. change (objectStore users db_with_users) with
    ({[ "u1" := row_u; "u2" := row_v ]} : gmap string Row) in H.
  apply lookup_insert_Some in H as [[<- <-]|[_ H]]; [done|].
  apply lookup_singleton_Some in H as [<- <-]. done.
Qed.

Lemma deleted_user_returns_witness :
  let w1 := Users.handleDelete "u2" true ([row_u; row_v], (sample_ls, db_with_users)) in
  fst (Storage.getUsers (snd w1)) = fst w1 /\
  row_v ∈ fst (Storage.getUsers (snd (Storage.getUsers (snd w1)))).
Proof.
  cbv zeta.
  destruct (deleted_user_returns "u2" row_v [row_u; row_v] sample_ls db_with_users
              keyed_db_with_users) as (_ & Hfirst & _ & Hsecond); [reflexivity|].
  split; [exact Hfirst | exact Hsecond].
Defined.

Lemma getPassengers_eq db :
  Storage.getPassengers db =
  (Storage.Fulfilled
     (map snd (merge_sort key_le (map_to_list (objectStore passengers db)))), db).
Proof. reflexivity. Qed.

(** X10. [handleClearPassengers] of the passengers page deletes nothing.
    Saving the empty array writes nothing, so the durable store is as it
    was, the page lists again every passenger the store holds, and the
    alert says that all passengers were deleted. *)
Theorem handleClearPassengers_deletes_nothing pg db :
  let w' := Passengers.handleClearPassengers true (pg, db) in
  snd w' = db /\
  Resolved (Passengers.pg_passengers (fst w')) = fst (getAll passengers db) /\
  Passengers.alerts (fst w')
  = (Passengers.alerts pg ++ [Passengers.msg_all_deleted])%list.
Proof. cbv zeta. done. Qed.

Lemma savePassengers_snd data db :
  snd (Storage.savePassengers data db) = snd (saveAll passengers data db).
Proof.
  unfold Storage.savePassengers, Storage.orError, IndexedDB.savePassengers.
  by destruct (saveAll passengers data db) as [[?|?] ?].
Qed.



(** *** Submitting a passenger *)


Section SubmitPassenger.

Variable generateQRCode : string -> string -> string -> string -> Storage.Outcome string.
Variable new_rest : string -> string -> string -> string -> string.
Variable edited_rest : Passengers.FormData -> string -> string.

Local Abbreviation submit := (Passengers.handleSubmit generateQRCode new_rest edited_rest).

Lemma put_all_snoc u l x st :
  put_all u (l ++ [x]) st =
  match put_all u l st with
  | Resolved st1 => put u x st1
  | Rejected e => Rejected e
  end.
Proof.
  revert st. induction l as [|r l IH]; intros st; simpl.
  - by destruct (put u x st).
  - destruct (put u r st); [apply IH | done].
Qed.

Lemma savePassengers_eq data db :
  Storage.savePassengers data db =
  match put_all true data (objectStore passengers db) with
  | Resolved st => (Storage.Fulfilled tt, with_objectStore passengers st db)
  | Rejected _ => (Storage.Failed (Storage.Err Storage.msg_save_passengers), db)
  end.
Proof.
  unfold Storage.savePassengers, Storage.orError, IndexedDB.savePassengers.
  rewrite saveAll_eq. by destruct (put_all _ _ _).
Qed.

(** X26. A passenger deleted on the page blocks its cedula in the store.
    After [handleDelete] took the passenger with id [a] and cedula [c] off
    the page, [handleSubmit] of a new passenger with the cedula [c] passes
    the duplicate check and shows the new passenger on the page, but its
    save is refused by the unique index of the store, where the deleted
    passenger still holds [c]: the store is left as it was, and after
    [loadPassengers] the page shows the deleted passenger again and the new
    one no more. *)
Theorem deleted_passenger_blocks_cedula now pg db a r c qrCode :
  keyed (objectStore passengers db) ->
  objectStore passengers db !! a = Some r ->
  row_cedula r = Some c ->
  Passengers.editingPassenger pg = None ->
  Passengers.fd_cedula (Passengers.formData pg) = c ->
  (forall p, p ∈ Passengers.pg_passengers pg -> row_cedula p = Some c -> row_id p = a) ->
  generateQRCode c (Passengers.fd_name (Passengers.formData pg))
    (Passengers.fd_gerencia (Passengers.formData pg)) (isoString (now 0))
  = Storage.Fulfilled qrCode ->
  pretty (epochMs (now 1)) <> a ->
  objectStore passengers db !! pretty (epochMs (now 1)) = None ->
  (forall p, p ∈ Passengers.pg_passengers pg -> row_id p <> pretty (epochMs (now 1))) ->
  let w1 := Passengers.handleDelete a true (pg, db) in
  let w2 := snd (submit now w1) in
  let w3 := Passengers.loadPassengers w2 in
  fst (submit now w1) = Storage.Fulfilled tt /\
  (exists p, p ∈ Passengers.pg_passengers (fst w2) /\
             row_id p = pretty (epochMs (now 1)) /\ row_cedula p = Some c) /\
  snd w2 = snd w1 /\
  r ∈ Passengers.pg_passengers (fst w3) /\
  (forall p, p ∈ Passengers.pg_passengers (fst w3) ->
             row_id p <> pretty (epochMs (now 1))).
Proof.
  intros Hk Hr Hc Hedit Hform Honly Hqr Hnew Hfresh Hfresh'. cbv zeta.
  set (id' := pretty (epochMs (now 1))) in *.
  unfold Passengers.handleDelete. cbn [fst snd]. rewrite savePassengers_snd.
  set (l1 := List.filter (fun p => negb (String.eqb (row_id p) a))
               (Passengers.pg_passengers pg)).
  destruct (saveAll_without_id passengers a (Passengers.pg_passengers pg) db)
    as [Hid Hk1]. fold l1 in Hid, Hk1.
  set (db1 := snd (saveAll passengers l1 db)) in *.
  specialize (Hk1 Hk). rewrite Hr in Hid.
  assert (Hl1 : forall p, p ∈ l1 -> p ∈ Passengers.pg_passengers pg /\ row_id p <> a).
  { intros p Hp. split; [|by apply (filter_not_id a (Passengers.pg_passengers pg))].
    apply list_elem_of_In, filter_In in Hp as [Hp _]. by apply list_elem_of_In. }
  assert (Hfresh1 : objectStore passengers db1 !! id' = None).
  { unfold db1. rewrite saveAll_eq.
    destruct (put_all_cases (unique_cedula passengers) l1 (objectStore passengers db))
      as [->|[_ ->]]; cbn [snd]; [|done].
    rewrite objectStore_with_eq, put_each_lookup.
    destruct (last_with_id id' l1) as [x|] eqn:L; [|done]. exfalso.
    unfold last_with_id in L. apply last_Some_elem_of in L.
    apply list_elem_of_In, filter_In in L as [Hx Hxid].
    apply String.eqb_eq in Hxid. apply list_elem_of_In in Hx.
    destruct (Hl1 x Hx) as [Hx' _]. by apply (Hfresh' x Hx'). }
  unfold Passengers.handleSubmit. cbn [fst snd Passengers.setPassengers
    Passengers.formData Passengers.editingPassenger Passengers.pg_passengers].
  rewrite Hedit, Hform.
  assert (Hcheck : List.find (fun p => opt_eqb (row_cedula p) c && true) l1 = None).
  { apply find_none_all. intros p Hp. rewrite andb_true_r.
    destruct (Hl1 p Hp) as [Hp' Hne].
    destruct (row_cedula p) as [cp|] eqn:E; [|done]. simpl.
    apply String.eqb_neq. intros ->. by apply Hne, Honly. }
  rewrite Hcheck, Hqr. cbn [fst snd]. fold id'.
  set (new := mkRow id' (Some c) _).
  assert (Hrefused : Storage.savePassengers (l1 ++ [new]) db1 =
                     (Storage.Failed (Storage.Err Storage.msg_save_passengers), db1)).
  { rewrite savePassengers_eq, put_all_snoc.
    destruct (put_all_cases true l1 (objectStore passengers db1)) as [->|[_ ->]];
      [|done].
    unfold put.
    assert (owned_elsewhere new (put_each l1 (objectStore passengers db1)) = true) as ->;
      [|done].
    apply owned_elsewhere_true. exists a, r, c. split; [|by repeat split].
    rewrite put_each_lookup.
    assert (last_with_id a l1 = None) as -> by apply filter_without_id. done. }
  rewrite Hrefused. cbn [snd].
  split; [done|]. split.
  - exists new. split; [|done]. cbn. apply elem_of_app. right. by left.
  - split; [done|].
    unfold Passengers.loadPassengers. cbn [fst snd]. rewrite getPassengers_eq.
    cbn [Passengers.setPassengers Passengers.pg_passengers fst].
    split.
    + apply list_elem_of_fmap. exists (a, r). split; [done|].
      rewrite merge_sort_Permutation. by apply elem_of_map_to_list.
    + intros p Hp Hpid. apply list_elem_of_fmap in Hp as ([k x] & -> & Hx).
      rewrite merge_sort_Permutation in Hx. apply elem_of_map_to_list in Hx.
      simpl in Hpid. rewrite (Hk1 _ _ Hx) in Hpid. subst k. congruence.
Qed.

Lemma NoDup_omap_eq (l : list Row) x y c :
  NoDup (omap row_cedula l) -> x ∈ l -> y ∈ l ->
  row_cedula x = Some c -> row_cedula y = Some c -> x = y.
Proof.
  induction l as [|z l IH]; intros Hnd Hx Hy Hcx Hcy; [by apply elem_of_nil in Hx|].
  assert (Hin : forall w, w ∈ l -> row_cedula w = Some c -> c ∈ omap row_cedula l).
  { intros w Hw Hcw. apply list_elem_of_omap. by exists w. }
  cbn in Hnd.
  apply elem_of_cons in Hx as [->|Hx], Hy as [->|Hy]; [done| | |].
  - exfalso. rewrite Hcx in Hnd. apply NoDup_cons in Hnd as [Hnot _]. by eapply Hnot, Hin.
  - exfalso. rewrite Hcy in Hnd. apply NoDup_cons in Hnd as [Hnot _]. by eapply Hnot, Hin.
  - apply IH; try done. destruct (row_cedula z); [by apply NoDup_cons in Hnd as [_ ?]|done].
Qed.

Lemma in_the_way_None pg p :
  in_the_way pg = None ->
  p ∈ Passengers.pg_passengers pg ->
  row_cedula p = Some (Passengers.fd_cedula (Passengers.formData pg)) ->
  exists e, Passengers.editingPassenger pg = Some e /\ row_id p = row_id e.
Proof.
  intros Hnone Hp Hc. unfold in_the_way in Hnone.
  pose proof (List.find_none _ _ Hnone p) as Hf.
  apply list_elem_of_In in Hp. specialize (Hf Hp). cbv beta in Hf.
  rewrite Hc in Hf. simpl in Hf. rewrite String.eqb_refl in Hf. simpl in Hf.
  destruct (Passengers.editingPassenger pg) as [e|]; [|done].
  exists e. split; [done|]. by apply negb_false_iff, String.eqb_eq in Hf.
Qed.

Lemma edit_elsewhere fd eid (l : list Row) :
  eid ∉ map row_id l ->
  map (fun p => if String.eqb (row_id p) eid then Passengers.withForm edited_rest fd p else p) l
  = l.
Proof.
  induction l as [|p l IH]; intros Hnot; [done|]. simpl in *.
  apply not_elem_of_cons in Hnot as [Hne Hnot].
  assert (String.eqb (row_id p) eid = false) as -> by (apply String.eqb_neq; congruence).
  by rewrite IH.
Qed.

Lemma edit_NoDup fd eid (l : list Row) :
  NoDup (map row_id l) ->
  NoDup (omap row_cedula l) ->
  (forall p, p ∈ l -> row_cedula p = Some (Passengers.fd_cedula fd) -> row_id p = eid) ->
  NoDup (omap row_cedula
           (map (fun p => if String.eqb (row_id p) eid
                          then Passengers.withForm edited_rest fd p else p) l)).
Proof.
  induction l as [|p l IH]; intros Hids Hnd Honly; [done|].
  simpl in Hids. apply NoDup_cons in Hids as [Hidp Hids].
  assert (Htail : NoDup (omap row_cedula l)).
  { cbn in Hnd. destruct (row_cedula p); [by apply NoDup_cons in Hnd as [_ ?]|done]. }
  assert (Honly' : forall q, q ∈ l ->
            row_cedula q = Some (Passengers.fd_cedula fd) -> row_id q = eid).
  { intros q Hq. apply Honly. by right. }
  simpl map. destruct (String.eqb (row_id p) eid) eqn:E.
  - apply String.eqb_eq in E. subst eid. rewrite edit_elsewhere by done.
    cbn. apply NoDup_cons. split; [|done].
    intros Hin. apply list_elem_of_omap in Hin as (q & Hq & Hcq).
    apply Hidp. rewrite <- (Honly' q Hq Hcq). apply list_elem_of_fmap. by exists q.
  - apply String.eqb_neq in E. specialize (IH Hids Htail Honly').
    cbn. destruct (row_cedula p) as [cp|] eqn:Hcp; [|done].
    apply NoDup_cons. split; [|done].
    intros Hin. apply list_elem_of_omap in Hin as (y & Hy & Hcy).
    apply list_elem_of_fmap in Hy as (q & -> & Hq).
    destruct (String.eqb (row_id q) eid) eqn:Eq.
    + simpl in Hcy. injection Hcy as <-. apply E, Honly; [by left|done].
    + cbn in Hnd. rewrite Hcp in Hnd. apply NoDup_cons in Hnd as [Hnot _].
      apply Hnot. apply list_elem_of_omap. by exists q.
Qed.

(** X27. The duplicate check of [handleSubmit] is enough for the store as
    long as the page shows what the store holds.  When a passenger of the
    page is in the way, the handler raises the alert and changes neither the
    list nor the store.  When none is, the page lists every stored
    passenger, and the ids and the cedulas on the page are pairwise
    different, the save of the submitted list is not refused, and every
    passenger of the list can be read back under its id. *)
Theorem checked_submit_is_saved now pg db :
  (forall p, in_the_way pg = Some p ->
     submit now (pg, db)
     = (Storage.Fulfilled tt, (Passengers.alert Passengers.msg_cedula_exists pg, db))) /\
  (mirrors (Passengers.pg_passengers pg) db ->
   NoDup (map row_id (Passengers.pg_passengers pg)) ->
   NoDup (omap row_cedula (Passengers.pg_passengers pg)) ->
   in_the_way pg = None ->
   (Passengers.editingPassenger pg = None ->
    exists qrCode,
      generateQRCode (Passengers.fd_cedula (Passengers.formData pg))
        (Passengers.fd_name (Passengers.formData pg))
        (Passengers.fd_gerencia (Passengers.formData pg)) (isoString (now 0))
      = Storage.Fulfilled qrCode) ->
   let w' := snd (submit now (pg, db)) in
   let updated := Passengers.pg_passengers (fst w') in
   fst (submit now (pg, db)) = Storage.Fulfilled tt /\
   Storage.savePassengers updated db = (Storage.Fulfilled tt, snd w') /\
   forall p, p ∈ updated ->
     exists p', objectStore passengers (snd w') !! row_id p = Some p' /\
                last_with_id (row_id p) updated = Some p').
Proof.
  split.
  - intros p Hp. unfold Passengers.handleSubmit. cbn [fst snd].
    unfold in_the_way in Hp. by rewrite Hp.
  - intros [Hk Hmirror] Hids Hnd Hnone Hqr. cbv zeta.
    assert (Hsaved : forall updated,
              cedulas_free updated (objectStore passengers db) ->
              Storage.savePassengers updated db
              = (Storage.Fulfilled tt,
                 with_objectStore passengers
                   (put_each updated (objectStore passengers db)) db) /\
              forall p, p ∈ updated ->
                exists p', put_each updated (objectStore passengers db) !! row_id p
                           = Some p' /\
                           last_with_id (row_id p) updated = Some p').
    { intros updated Hfree. split.
      - by rewrite savePassengers_eq, (put_all_cedulas_free _ _ _ Hfree).
      - intros p Hp. rewrite put_each_lookup.
        destruct (last_with_id (row_id p) updated) as [p'|] eqn:L; [by exists p'|].
        exfalso. unfold last_with_id in L. apply last_None in L.
        assert (Hin : p ∈ List.filter (fun x => String.eqb (row_id x) (row_id p)) updated).
        { apply list_elem_of_In, filter_In. split; [by apply list_elem_of_In|].
          apply String.eqb_refl. }
        rewrite L in Hin. by apply elem_of_nil in Hin. }
    unfold Passengers.handleSubmit. cbn [fst snd].
    unfold in_the_way in Hnone. rewrite Hnone. fold (in_the_way pg) in Hnone.
    set (l := Passengers.pg_passengers pg) in *.
    set (fd := Passengers.formData pg) in *.
    destruct (Passengers.editingPassenger pg) as [e|] eqn:Hedit.
    + set (updated := map _ l).
      assert (Hfree : cedulas_free updated (objectStore passengers db)).
      { split.
        - apply edit_NoDup; [done|done|]. intros p Hp Hc.
          destruct (in_the_way_None pg p Hnone Hp Hc) as (e' & He' & Hid).
          rewrite Hedit in He'. by injection He' as <-.
        - intros x k r0 ced Hx Hr0 Hc0 Hcx.
          assert (Hr0l : r0 ∈ l) by (by eapply Hmirror).
          rewrite <- (Hk _ _ Hr0).
          apply list_elem_of_fmap in Hx as (q & -> & Hq).
          destruct (String.eqb (row_id q) (row_id e)) eqn:E.
          + simpl in Hcx. injection Hcx as <-. simpl.
            destruct (in_the_way_None pg r0 Hnone Hr0l Hc0) as (e' & He' & Hid).
            rewrite Hedit in He'. injection He' as <-.
            apply String.eqb_eq in E. congruence.
          + by rewrite (NoDup_omap_eq l r0 q ced Hnd Hr0l Hq Hc0 Hcx). }
      destruct (Hsaved updated Hfree) as [Hsave Hread].
      cbn [fst snd Passengers.resetForm Passengers.setPassengers
           Passengers.pg_passengers]. rewrite Hsave. cbn [snd].
      split; [done|]. split; [done|]. intros p Hp.
      rewrite objectStore_with_eq. by apply Hread.
    + destruct (Hqr eq_refl) as [qrCode ->].
      set (new := mkRow _ _ _). set (updated := (l ++ [new])%list).
      assert (Hfree : cedulas_free updated (objectStore passengers db)).
      { split.
        - unfold updated. rewrite omap_app. cbn. apply NoDup_app. split; [done|].
          split; [|apply NoDup_singleton].
          intros c Hc Hnew. apply list_elem_of_singleton in Hnew as ->.
          apply list_elem_of_omap in Hc as (q & Hq & Hcq).
          destruct (in_the_way_None pg q Hnone Hq Hcq) as (e' & He' & _).
          by rewrite Hedit in He'.
        - intros x k r0 ced Hx Hr0 Hc0 Hcx.
          assert (Hr0l : r0 ∈ l) by (by eapply Hmirror).
          rewrite <- (Hk _ _ Hr0).
          apply elem_of_app in Hx as [Hx|Hx].
          + by rewrite (NoDup_omap_eq l r0 x ced Hnd Hr0l Hx Hc0 Hcx).
          + apply list_elem_of_singleton in Hx as ->. simpl in Hcx.
            injection Hcx as <-.
            destruct (in_the_way_None pg r0 Hnone Hr0l Hc0) as (e' & He' & _).
            by rewrite Hedit in He'. }
      destruct (Hsaved updated Hfree) as [Hsave Hread].
      cbn [fst snd Passengers.resetForm Passengers.setPassengers
           Passengers.pg_passengers]. fold updated. rewrite Hsave. cbn [snd].
      split; [done|]. split; [done|]. intros p Hp.
      rewrite objectStore_with_eq. by apply Hread.
Qed.

End SubmitPassenger.

Lemma deleted_passenger_blocks_cedula_witness :
  let w1 := Passengers.handleDelete "p1" true
              (page_with_form [row_a] sample_form None, db_with_a) in
  let w2 := snd (Passengers.handleSubmit sample_generate sample_new_rest
                   sample_edited_rest sample_clock w1) in
  snd w2 = snd w1 /\
  row_a ∈ Passengers.pg_passengers (fst (Passengers.loadPassengers w2)).
Proof.
  cbv zeta.
  destruct (deleted_passenger_blocks_cedula sample_generate sample_new_rest
              sample_edited_rest sample_clock (page_with_form [row_a] sample_form None)
              db_with_a "p1" row_a "12345678" "QR:12345678")
    as (_ & _ & Hsame & Hback & _).
  - apply (keyed_db_with_a passengers).
  - reflexivity.
  - reflexivity.
  - reflexivity.
  - reflexivity.
  - intros p Hp _. apply list_elem_of_singleton in Hp as ->. reflexivity.
  - reflexivity.
  - by vm_compute.
  - by vm_compute.
  - intros p Hp. apply list_elem_of_singleton in Hp as ->. by vm_compute.
  - split; [exact Hsame | exact Hback].
Defined.

Lemma checked_submit_is_saved_witness :
  let pg := page_with_form [row_a] other_form None in
  let w' := snd (Passengers.handleSubmit sample_generate sample_new_rest
                   sample_edited_rest sample_clock (pg, db_with_a)) in
  Storage.savePassengers (Passengers.pg_passengers (fst w')) db_with_a
  = (Storage.Fulfilled tt, snd w').
Proof.
  cbv zeta.
  destruct (checked_submit_is_saved sample_generate sample_new_rest sample_edited_rest
              sample_clock (page_with_form [row_a] other_form None) db_with_a)
    as [_ Hsaved].
  destruct Hsaved as (_ & Hsave & _).
  - split; [apply (keyed_db_with_a passengers)|]. intros k r Hk.
    change (objectStore passengers db_with_a) with
      ({[ "p1" := row_a ]} : gmap string Row) in Hk.
    apply lookup_singleton_Some in Hk as [_ <-]. by left.
  - apply NoDup_singleton.
  - apply NoDup_singleton.
  - reflexivity.
  - intros _. by eexists.
  - exact Hsave.
Defined.

End Facade.

(** ** Saving what the import returns *)

Section ImportThenSave.
Import IndexedDB PassengerImport.

Variable trim : string -> string.
Variable generateQRCode : QRData -> option string.
Variable isoAt : nat -> string.
Variable uuidAt : nat -> string.
Variable rest_of : NewPassenger -> string.

Local Abbreviation process' := (processPassengersFromImport trim generateQRCode isoAt uuidAt).
Local Abbreviation saveImported := (saveImportedPassengers rest_of).

Lemma process_cedulas (existingPassengers : list Passenger) data :
  NoDup (map np_cedula (process' existingPassengers data)) /\
  forall p, p ∈ process' existingPassengers data ->
            np_cedula p ∉ map p_cedula existingPassengers.
Proof.
  unfold processPassengersFromImport.
  set (stored := list_to_set (map p_cedula existingPassengers) : gset string).
  assert (Hinv : import_invariant stored
                   (foldl (process_row trim generateQRCode isoAt uuidAt)
                      (mkLoop stored [] 0 0) data)).
  { apply foldl_invariant. split; [apply NoDup_nil_2|]. split; [|done].
    intros p Hp. by apply elem_of_nil in Hp. }
  destruct Hinv as (Hnd & Hin & _). split; [exact Hnd|].
  intros p Hp Hc. destruct (Hin p Hp) as (_ & Hnot & _).
  apply Hnot. unfold stored. by apply elem_of_list_to_set.
Qed.

Lemma omap_stored_as (l : list NewPassenger) :
  omap row_cedula (map (stored_as rest_of) l) = map np_cedula l.
Proof. induction l as [|p l IH]; [done|]. cbn. by f_equal. Qed.

(** X12. The passengers that [processPassengersFromImport] returns can
    always be saved.  When the passengers it was given are those of the
    store, [saveImportedPassengers] of its result is never refused by the
    unique cedula index: it fulfils with the number of new passengers, each
    of which can then be read back under its id unless a later one has the
    same id; and for an empty result it fulfils with 0 and leaves the
    database as it was. *)
Theorem import_then_save (existingPassengers : list Passenger) data db :
  read_from existingPassengers db ->
  let news := process' existingPassengers data in
  exists db',
    saveImported news db = (Storage.Fulfilled (length news), db') /\
    (news = [] -> db' = db) /\
    (forall p, p ∈ news ->
       exists r, objectStore passengers db' !! np_id p = Some r /\
                 last_with_id (np_id p) (map (stored_as rest_of) news) = Some r) /\
    (forall sn, sn <> passengers -> objectStore sn db' = objectStore sn db).
Proof.
  intros Hread. cbv zeta.
  destruct (process_cedulas existingPassengers data) as [Hnd Hnew].
  set (news := process' existingPassengers data) in *.
  assert (Hfree : cedulas_free (map (stored_as rest_of) news)
                    (objectStore passengers db)).
  { split; [by rewrite omap_stored_as|].
    intros r k r' ced Hr Hk Hc' Hc. exfalso.
    apply list_elem_of_fmap in Hr as (p & -> & Hp). simpl in Hc.
    injection Hc as <-. apply (Hnew p Hp). by eapply Hread. }
  unfold saveImportedPassengers. destruct news as [|p0 news'] eqn:E.
  - exists db. split; [done|]. split; [done|]. split; [|done].
    intros p Hp. by apply elem_of_nil in Hp.
  - rewrite <- E in *. clearbody news.
    assert (Hsave : Storage.savePassengers (map (stored_as rest_of) news) db =
                    (Storage.Fulfilled tt,
                     with_objectStore passengers
                       (put_each (map (stored_as rest_of) news)
                          (objectStore passengers db)) db)).
    { unfold Storage.savePassengers, Storage.orError, IndexedDB.savePassengers.
      by rewrite saveAll_eq, (put_all_cedulas_free _ _ _ Hfree). }
    subst news. rewrite Hsave. eexists. split; [reflexivity|].
    split; [done|]. split.
    + intros p Hp. rewrite objectStore_with_eq, put_each_lookup.
      destruct (last_with_id _ _) as [r|] eqn:L; [by exists r|].
      exfalso. unfold last_with_id in L. apply last_None in L.
      assert (Hin : stored_as rest_of p ∈
                    List.filter (fun x => String.eqb (row_id x) (np_id p))
                      (map (stored_as rest_of) (p0 :: news'))).
      { apply list_elem_of_In, filter_In. split.
        - apply list_elem_of_In, list_elem_of_fmap. by exists p.
        - apply String.eqb_refl. }
      rewrite L in Hin. by apply elem_of_nil in Hin.
    + intros sn Hne. by rewrite objectStore_with_ne.
Qed.



End ImportThenSave.

Lemma import_then_save_witness :
  let news :=
    PassengerImport.processPassengersFromImport sample_trim sample_qr sample_iso
      sample_uuid [sample_passenger] sample_rows in
  length news = 2 /\
  exists db',
    PassengerImport.saveImportedPassengers PassengerImport.np_qrCode news db_with_a
    = (Storage.Fulfilled (length news), db').
Proof.
  cbv zeta. split; [by vm_compute|].
  destruct (import_then_save sample_trim sample_qr sample_iso sample_uuid
              PassengerImport.np_qrCode [sample_passenger] sample_rows db_with_a)
    as (db' & Hsave & _).
  - intros k r ced Hk Hc.
    change (IndexedDB.objectStore IndexedDB.passengers db_with_a) with
      ({[ "p1" := row_a ]} : gmap string IndexedDB.Row) in Hk.
    apply lookup_singleton_Some in Hk as [<- <-].
    change (Some "12345678" = Some ced) in Hc. injection Hc as <-.
    apply list_elem_of_singleton. reflexivity.
  - exists db'. exact Hsave.
Defined.

(** ** The scanning page: routes, scans and manual entry *)

Section ScanPage.
Import ScanQR.

Lemma bucket_snoc r trips t :
  bucket r (trips ++ [t]) =
  if String.eqb (route_key t) r
  then Some (default [] (bucket r trips) ++ [t])%list
  else bucket r trips.
Proof.
  unfold bucket. rewrite List.filter_app. simpl.
  destruct (String.eqb (route_key t) r).
  - destruct (List.filter _ trips) as [|x l]; reflexivity.
  - by rewrite app_nil_r.
Qed.

Lemma tripsByRoute_ok trips :
  existsb inherited trips = false ->
  exists m, tripsByRoute trips = Normal m /\ forall r, m !! r = bucket r trips.
Proof.
  unfold tripsByRoute. induction trips as [|t trips IH] using rev_ind; intros Hex.
  - exists ∅. split; [done|]. intros r. by rewrite lookup_empty.
  - rewrite existsb_app in Hex. apply orb_false_iff in Hex as [Hex Ht].
    simpl in Ht. rewrite orb_false_r in Ht.
    destruct (IH Hex) as (m & Hm & Hlook). rewrite foldl_app. simpl. rewrite Hm.
    exists (<[route_key t := (default [] (bucket (route_key t) trips) ++ [t])%list]> m).
    split.
    + simpl. fold (route_key t). rewrite Hlook. unfold inherited in Ht.
      destruct (bucket (route_key t) trips); [done|]. by rewrite Ht.
    + intros r. rewrite bucket_snoc.
      destruct (String.eqb (route_key t) r) eqn:E.
      * apply String.eqb_eq in E as <-. by rewrite lookup_insert_eq.
      * apply String.eqb_neq in E. by rewrite lookup_insert_ne.
Qed.

Lemma tripsByRoute_throws trips :
  existsb inherited trips = true -> tripsByRoute trips = Throw TypeError.
Proof.
  unfold tripsByRoute. induction trips as [|t trips IH] using rev_ind; intros Hex.
  - done.
  - rewrite foldl_app. simpl. rewrite existsb_app in Hex.
    destruct (existsb inherited trips) eqn:Hearlier.
    + by rewrite IH.
    + simpl in Hex. rewrite orb_false_r in Hex.
      destruct (tripsByRoute_ok trips Hearlier) as (m & Hm & Hlook).
      unfold tripsByRoute in Hm. rewrite Hm. simpl. fold (route_key t).
      rewrite Hlook.
      assert (Hnone : bucket (route_key t) trips = None).
      { unfold bucket.
        destruct (List.filter _ trips) as [|x l] eqn:F; [done|]. exfalso.
        assert (Hx : In x (List.filter
                             (fun t0 => String.eqb (route_key t0) (route_key t)) trips))
          by (rewrite F; by left).
        apply filter_In in Hx as [Hx Hkey]. apply String.eqb_eq in Hkey.
        assert (Hin : existsb inherited trips = true).
        { apply existsb_exists. exists x. split; [done|].
          unfold inherited in *. by rewrite Hkey. }
        congruence. }
      rewrite Hnone. unfold inherited in Hex. by rewrite Hex.
Qed.

(** X13. [tripsByRoute] files every active trip under its route, or under
    ['Ruta no especificada'] when it has none, the trips of a route in
    their order; a route no active trip has gets no entry.  But when the
    route of some active trip is a name that object literals inherit,
    ['constructor'] or ['toString'] for instance, it throws a [TypeError]. *)
Theorem tripsByRoute_buckets trips :
  if existsb inherited trips then tripsByRoute trips = Throw TypeError
  else exists m, tripsByRoute trips = Normal m /\ forall r, m !! r = bucket r trips.
Proof.
  destruct (existsb inherited trips) eqn:E.
  - by apply tripsByRoute_throws.
  - by apply tripsByRoute_ok.
Qed.

(** Two trips on a route and one without a route; and a trip whose route
    is ["constructor"]. *)
Example tripsByRoute_sample :
  let a := sample_trip "1" en_curso None in
  let b := mkTrip "2" None None "p2" "Eva" "2" "c1" "Ana" "" "" None en_curso "" in
  let c := mkTrip "3" None None "p3" "Luz" "3" "c1" "Ana" "constructor" "" None en_curso "" in
  tripsByRoute [a; b; a] = Normal {[ sample_route := [a; b; a] ]} /\
  tripsByRoute [a; c] = Throw TypeError.
Proof. cbv zeta. split; by vm_compute. Qed.

Lemma call_find {A} (xs : Listing A) pred pg :
  call (find xs pred) pg =
  (match xs with
   | ArrayOf items => Normal (List.find pred items)
   | PromiseOf _ => Throw TypeError
   end, pg).
Proof. destruct pg, xs; reflexivity. Qed.

Lemma call_trips {A} (m : M A) pg :
  page_trips (snd (call m pg)) = ls_trips (exec m (page_state pg)).
Proof. reflexivity. Qed.

Lemma call_finalizarViaje tripId pg :
  fst (call (finalizarViaje tripId) pg) = Throw TypeError.
Proof. unfold call. cbn [fst]. apply finalizarViaje_throws. Qed.

Lemma iniciarViaje_normal p s :
  completion (iniciarViaje p) s = Normal tt ->
  ls_trips (exec (iniciarViaje p) s) = ls_trips s.
Proof.
  unfold completion, exec. destruct (conductors s) as [cs|cs] eqn:Hc.
  - destruct (shift s) as [sh|] eqn:Hsh.
    + rewrite (iniciarViaje_array p s cs sh Hc Hsh), ensureGroup_eq. cbv zeta.
      destruct (or_null _); destruct (18 <=? _)%nat; try done.
    + by rewrite (iniciarViaje_no_shift p s cs Hc Hsh).
  - by rewrite (iniciarViaje_promise p s cs Hc).
Qed.

Lemma iniciarViaje_loaded p s cs :
  conductors s = PromiseOf cs -> exec (iniciarViaje p) s = s.
Proof. intros Hc. unfold exec. by rewrite (iniciarViaje_promise p s cs Hc). Qed.

Section Handlers.

Variable trim : string -> string.
Variable parseQRData : string -> option string.

Local Abbreviation scan := (handleQRScan parseQRData).
Local Abbreviation entry := (handleManualEntry trim).

(** X14. [handleQRScan] never throws; it always closes the scanner and
    always raises a banner.  A banner that reports success means that no
    trip was stored or changed; and whenever a trip was stored or changed,
    the banner says that the QR code is invalid. *)
Theorem handleQRScan_banner qrData pg :
  let pg' := snd (scan qrData pg) in
  fst (scan qrData pg) = Normal tt /\
  showScanner pg' = false /\
  exists b,
    banner pg' = Some b /\
    (sr_type b = success -> page_trips pg' = page_trips pg) /\
    (page_trips pg' <> page_trips pg -> b = mkScanResult error msg_invalid_qr).
Proof.
  cbv zeta. unfold handleQRScan.
  destruct (parseQRData qrData) as [cedula|].
  2: { split; [done|]. split; [done|]. eexists. split; [reflexivity|]. by split. }
  rewrite call_find. destruct (passengers (page_state pg)) as [ps|ps].
  2: { split; [done|]. split; [done|]. eexists. split; [reflexivity|]. by split. }
  destruct (List.find _ ps) as [passenger|].
  2: { split; [done|]. split; [done|]. eexists. split; [reflexivity|]. by split. }
  destruct (List.find _ (activeTrips (page_state pg))) as [existingTrip|].
  - destruct (call (finalizarViaje (trip_id existingTrip)) pg) as [c pg1] eqn:E.
    assert (Hc : c = Throw TypeError).
    { by rewrite <- (call_finalizarViaje (trip_id existingTrip) pg), E. }
    subst c. split; [done|]. split; [done|]. eexists. split; [reflexivity|].
    by split.
  - destruct (call (iniciarViaje passenger) pg) as [c pg1] eqn:E.
    assert (Hpg1 : page_trips pg1 = ls_trips (exec (iniciarViaje passenger) (page_state pg))).
    { by rewrite <- call_trips, E. }
    assert (Hc : c = completion (iniciarViaje passenger) (page_state pg)).
    { unfold call in E. by injection E as <- _. }
    destruct c as [[]|e].
    + split; [done|]. split; [done|]. eexists. split; [reflexivity|].
      assert (Hsame : page_trips pg1 = page_trips pg).
      { rewrite Hpg1. by apply iniciarViaje_normal. }
      split; [done|]. intros Hne. by destruct Hne.
    + split; [done|]. split; [done|]. eexists. split; [reflexivity|]. by split.
Qed.

(** X15. Once [loadData] has run, the page holds promises where it expects
    its passengers and conductors.  From then on every scan, whatever the
    code, is answered with the banner of an invalid QR code, and a manual
    entry of a cedula that is not blank throws a [TypeError] and leaves its
    dialog open; neither stores or changes a trip or a group binding. *)
Theorem scan_and_entry_after_load qrData pg :
  loaded (page_state pg) ->
  (fst (scan qrData pg) = Normal tt /\
   banner (snd (scan qrData pg)) = Some (mkScanResult error msg_invalid_qr) /\
   page_trips (snd (scan qrData pg)) = page_trips pg /\
   page_items (snd (scan qrData pg)) = page_items pg) /\
  (truthy (trim (manualCedula pg)) = true -> entry pg = (Throw TypeError, pg)).
Proof.
  intros [[ps Hps] _]. split.
  - unfold handleQRScan. destruct (parseQRData qrData) as [cedula|]; [|done].
    rewrite call_find, Hps. done.
  - intros Hc. unfold handleManualEntry. rewrite Hc. cbn [negb].
    by rewrite call_find, Hps.
Qed.

(** X16. A manual entry with a blank cedula raises the banner that asks
    for a valid one and leaves the dialog as it is; with a cedula that no
    passenger of the page's list has, it raises the banner that names the
    trimmed cedula, closes the dialog and clears the field.  Neither stores
    or changes a trip. *)
Theorem handleManualEntry_unknown pg ps :
  passengers (page_state pg) = ArrayOf ps ->
  (truthy (trim (manualCedula pg)) = false ->
   entry pg = (Normal tt, setBanner error msg_enter_cedula None pg)) /\
  (truthy (trim (manualCedula pg)) = true ->
   (forall p, p ∈ ps -> p_cedula p <> trim (manualCedula pg)) ->
   let pg' := snd (entry pg) in
   fst (entry pg) = Normal tt /\
   banner pg' = Some (mkScanResult error (msg_not_found (trim (manualCedula pg)))) /\
   showManualEntry pg' = false /\ manualCedula pg' = "" /\
   page_trips pg' = page_trips pg /\ page_items pg' = page_items pg).
Proof.
  intros Hps. split.
  - intros Hc. unfold handleManualEntry. by rewrite Hc.
  - intros Hc Hnone. cbv zeta. unfold handleManualEntry. rewrite Hc. cbn [negb].
    rewrite call_find, Hps.
    assert (Hfind : List.find (fun p => String.eqb (p_cedula p) (trim (manualCedula pg))) ps
                    = None).
    { apply find_none_all. intros p Hp. by apply String.eqb_neq, Hnone. }
    by rewrite Hfind.
Qed.


End Handlers.

End ScanPage.

Lemma scan_and_entry_after_load_witness :
  let pg := entry_page state_reloaded "12345678" in
  banner (snd (handleQRScan sample_parse "QR:12345678" pg))
  = Some (mkScanResult error msg_invalid_qr) /\
  page_trips (snd (handleQRScan sample_parse "QR:12345678" pg)) = page_trips pg /\
  handleManualEntry sample_trim pg = (Throw TypeError, pg).
Proof.
  cbv zeta.
  destruct (scan_and_entry_after_load sample_trim sample_parse "QR:12345678"
              (entry_page state_reloaded "12345678")) as [(_ & Hb & Ht & _) He].
  - split; eexists; reflexivity.
  - split; [exact Hb|]. split; [exact Ht|]. apply He. reflexivity.
Defined.

Lemma handleManualEntry_unknown_witness :
  handleManualEntry sample_trim (entry_page state_with_passenger "  ")
  = (Normal tt,
     setBanner error msg_enter_cedula None (entry_page state_with_passenger "  ")) /\
  banner (snd (handleManualEntry sample_trim (entry_page state_with_passenger " 999 ")))
  = Some (mkScanResult error (msg_not_found "999")).
Proof.
  split.
  - destruct (handleManualEntry_unknown sample_trim
                (entry_page state_with_passenger "  ") [sample_passenger])
      as [Hblank _]; [reflexivity|].
    apply Hblank. reflexivity.
  - destruct (handleManualEntry_unknown sample_trim
                (entry_page state_with_passenger " 999 ") [sample_passenger])
      as [_ Hunknown]; [reflexivity|].
    destruct Hunknown as (_ & Hb & _); [reflexivity| |exact Hb].
    intros p Hp. apply list_elem_of_singleton in Hp as ->. discriminate.
Defined.


(** ** The scanning page: what every action keeps *)

Section PageInvariants.
Import ScanQR.

Lemma stamp_false clk k l : stamp (fun _ => false) clk k l = l.
Proof. by apply stamp_none. Qed.

Lemma selectShift_eq v s :
  selectShift v s =
  match conductors s with
  | ArrayOf cs =>
      (Normal tt,
       with_currentGroupId
         (or_null (ls_items s !!
            groupStorageKey (current_conductorId s) (ruta_of (current_conductor s) "") v
              (day_of (isoString (clock s (tick s))))))
         (with_tick (S (tick s)) (with_shift v s)))
  | PromiseOf _ => (Throw TypeError, with_shift v s)
  end.
Proof.
  unfold current_conductorId, current_conductor.
  unfold selectShift, bind, get, setShift, modify, find_conductor, find.
  proj_simpl. destruct (conductors s); reflexivity.
Qed.

(** What an action does to the stored trips and to the clock: it stamps
    some of them, or it is a start call that appends one trip, made from
    readings of the clock that it takes. *)
Lemma perform_trips a s :
  tick s <= tick (exec (perform a) s) /\
  ((exists P k, ls_trips (exec (perform a) s) = stamp P (clock s) k (ls_trips s)) \/
   (exists p sh g k,
      a = Start p /\
      length (group_trips g (ls_trips s)) < 18 /\
      tick s <= k /\ k < tick (exec (perform a) s) /\
      ls_trips (exec (perform a) s) = (ls_trips s ++ [new_trip s sh g k p])%list)).
Proof.
  unfold exec. destruct a as [p|tripId|ruta [|]|v]; unfold perform.
  - destruct (conductors s) as [cs|cs] eqn:Hc.
    + destruct (shift s) as [sh|] eqn:Hsh.
      * rewrite (iniciarViaje_array p s cs sh Hc Hsh), ensureGroup_eq. cbv zeta.
        destruct (or_null _) as [g|];
          match goal with
          | |- context [(18 <=? ?n)%nat] => destruct (Nat.leb_spec 18 n) as [Hn|Hn]
          end; rewrite ?loadData_eq; cbn [snd]; proj_simpl.
        -- split; [lia|]. left. exists (fun _ => false), 0. by rewrite stamp_false.
        -- split; [lia|]. right. eexists p, sh, _, _. split; [done|].
           split; [exact Hn|]. split; [|split; [|reflexivity]]; lia.
        -- split; [lia|]. left. exists (fun _ => false), 0. by rewrite stamp_false.
        -- split; [lia|]. right. eexists p, sh, _, _. split; [done|].
           split; [exact Hn|]. split; [|split; [|reflexivity]]; lia.
      * rewrite (iniciarViaje_no_shift p s cs Hc Hsh). cbn [snd]. proj_simpl.
        split; [lia|]. left. exists (fun _ => false), 0. by rewrite stamp_false.
    + rewrite (iniciarViaje_promise p s cs Hc). cbn [snd].
      split; [lia|]. left. exists (fun _ => false), 0. by rewrite stamp_false.
  - rewrite finalizarViaje_eq, loadData_eq. cbn [snd]. proj_simpl.
    split; [lia|]. left. by eexists _, _.
  - rewrite finalizarRuta_eq. cbv zeta.
    destruct (conductors s); rewrite ?loadData_eq; cbn [snd]; proj_simpl;
      (split; [lia|]); left; by eexists _, _.
  - rewrite finalizarRuta_declined. cbn [snd].
    split; [lia|]. left. exists (fun _ => false), 0. by rewrite stamp_false.
  - rewrite selectShift_eq. destruct (conductors s); cbn [snd]; proj_simpl;
      (split; [lia|]); left; exists (fun _ => false), 0; by rewrite stamp_false.
Qed.

Lemma group_trips_stamp g P clk k l :
  length (group_trips g (stamp P clk k l)) = length (group_trips g l).
Proof.
  unfold group_trips. revert k. induction l as [|t l IH]; intros k; [done|].
  simpl. destruct (P t); simpl; destruct (opt_eqb (trip_groupId t) g); simpl;
    by rewrite IH.
Qed.

Lemma group_trips_snoc g l t :
  length (group_trips g (l ++ [t])) =
  length (group_trips g l) + (if opt_eqb (trip_groupId t) g then 1 else 0).
Proof.
  unfold group_trips. rewrite List.filter_app, length_app. simpl.
  by destruct (opt_eqb (trip_groupId t) g).
Qed.

(** X18. No sequence of actions on the page (start, finalize one, finalize
    route, shift selection) makes a group exceed the capacity: if no group
    holds more than 18 stored trips, none does afterwards. *)
Theorem capacity_kept acts s :
  within_capacity (ls_trips s) -> within_capacity (ls_trips (run acts s)).
Proof.
  revert s. induction acts as [|a acts IH]; intros s Hcap; [done|].
  simpl. apply IH. intros g'.
  destruct (perform_trips a s) as [_ [(P & k & ->)|(p & sh & g & k & _ & Hlt & _ & _ & ->)]].
  - rewrite group_trips_stamp. apply Hcap.
  - rewrite group_trips_snoc. cbn [new_trip trip_groupId opt_eqb].
    destruct (String.eqb g g') eqn:E.
    + apply String.eqb_eq in E as <-. lia.
    + specialize (Hcap g'). lia.
Qed.

Lemma stamp_ids P clk k l : map trip_id (stamp P clk k l) = map trip_id l.
Proof.
  revert k. induction l as [|t l IH]; intros k; [done|].
  simpl. destruct (P t); simpl; by rewrite IH.
Qed.

Lemma perform_ids a s :
  increasing s -> ids_minted_before s -> NoDup (map trip_id (ls_trips s)) ->
  ids_minted_before (exec (perform a) s) /\
  NoDup (map trip_id (ls_trips (exec (perform a) s))).
Proof.
  intros Hinc Hids Hnd.
  assert (Hclock := perform_clock a s).
  destruct (perform_trips a s) as [Htick Htrips].
  assert (Hlater : forall n, (n < epochMs (clock s (tick s)))%N ->
                             (n < epochMs (clock s (tick (exec (perform a) s))))%N).
  { intros n Hn. destruct (decide (tick s = tick (exec (perform a) s))) as [<-|Hne];
      [done|]. specialize (Hinc (tick s) (tick (exec (perform a) s))). lia. }
  destruct Htrips as [(P & k & Heq)|(p & sh & g & k & _ & _ & Hk & Hk' & Heq)].
  - split.
    + intros i Hi. rewrite Heq, stamp_ids in Hi. rewrite Hclock.
      destruct (Hids i Hi) as (n & -> & Hn). exists n. split; [done|]. by apply Hlater.
    + by rewrite Heq, stamp_ids.
  - assert (Hfresh : forall n, (n < epochMs (clock s (tick s)))%N ->
                               (n < epochMs (clock s k))%N).
    { intros n Hn. destruct (decide (tick s = k)) as [<-|Hne]; [done|].
      specialize (Hinc (tick s) k). lia. }
    split.
    + intros i Hi. rewrite Heq, map_app in Hi. rewrite Hclock.
      apply elem_of_app in Hi as [Hi|Hi].
      * destruct (Hids i Hi) as (n & -> & Hn). exists n. split; [done|]. by apply Hlater.
      * apply list_elem_of_singleton in Hi as ->. eexists. split; [reflexivity|].
        by apply Hinc.
    + rewrite Heq, map_app. apply NoDup_app. split; [done|]. split.
      * intros i Hi Hnew. apply list_elem_of_singleton in Hnew.
        destruct (Hids i Hi) as (n & -> & Hn). cbn [new_trip trip_id] in Hnew.
        apply pretty_N_inj in Hnew. specialize (Hfresh n Hn). lia.
      * apply NoDup_singleton.
Qed.

(** X19. While the clock advances from each reading to the next, the trips
    keep pairwise different ids through every sequence of actions on the
    page: a start call makes the id of its trip from a reading later than
    those the stored ids were made from. *)
Theorem ids_stay_distinct acts s :
  increasing s -> ids_minted_before s -> NoDup (map trip_id (ls_trips s)) ->
  NoDup (map trip_id (ls_trips (run acts s))).
Proof.
  revert s. induction acts as [|a acts IH]; intros s Hinc Hids Hnd; [done|].
  simpl. destruct (perform_ids a s Hinc Hids Hnd) as [Hids' Hnd'].
  apply IH; [|done|done]. intros i j Hij. rewrite perform_clock. by apply Hinc.
Qed.

(** With the clock standing still the ids are not kept apart: a start call
    on the sample page gives its trip the id of the trip that is stored. *)
Example ids_collide_on_frozen_clock :
  map trip_id (ls_trips (exec (iniciarViaje sample_passenger) state_frozen))
  = ["1741082400000"; "1741082400000"].
Proof. by vm_compute. Qed.

(** X20. A start call that stores a trip files it in the group that
    localStorage binds to the trip's own conductor, route, shift and day:
    with a shift selected, the page holding its conductors as an array, all
    clock readings on one day and room in the group, the trip appended is
    under way, has no end time, carries the passenger, the selected shift
    and the group id found or minted, that id is bound under the group key
    and shown as the current group, and the page lists the stored trips that
    are under way. *)
Theorem started_trip_bound p s cs sh d :
  conductors s = ArrayOf cs ->
  shift s = Some sh ->
  same_day s d ->
  length (group_trips (derived_groupId s) (ls_trips s)) < 18 ->
  let s' := exec (iniciarViaje p) s in
  exists t g,
    ls_trips s' = (ls_trips s ++ [t])%list /\
    trip_groupId t = Some g /\ trip_shift t = Some sh /\
    trip_passengerId t = p_id p /\ trip_passengerName t = p_name p /\
    trip_passengerCedula t = p_cedula p /\
    trip_status t = en_curso /\ trip_endTime t = None /\
    ls_items s' !! groupStorageKey (trip_conductorId t) (trip_ruta t) (trip_shift t) d
    = Some g /\
    currentGroupId s' = Some g /\
    in_step s'.
Proof.
  intros Hc Hsh Hday Hlt. cbv zeta. unfold derived_groupId in Hlt.
  rewrite group_of_eq, Hsh, (Hday (tick s)) in Hlt.
  unfold exec, in_step. rewrite (iniciarViaje_array p s cs sh Hc Hsh).
  destruct (or_null (ls_items s !!
              groupStorageKey (current_conductorId s) (current_ruta s) (Some sh) d))
    as [g|] eqn:Hg.
  - rewrite (ensureGroup_bound _ _ _ s d g Hday Hg).
    destruct (Nat.leb_spec 18 (length (group_trips g (ls_trips s)))) as [Hn|Hn]; [lia|].
    rewrite loadData_eq. cbn [snd]. proj_simpl.
    eexists _, g. split; [reflexivity|]. cbn [new_trip trip_groupId trip_shift
      trip_passengerId trip_passengerName trip_passengerCedula trip_status
      trip_endTime trip_conductorId trip_ruta].
    repeat (split; [done|]). split; [|done].
    by apply or_null_Some in Hg as [Hg _].
  - rewrite (ensureGroup_unbound _ _ _ s d Hday Hg).
    destruct (Nat.leb_spec 18 (length (group_trips
                (minted (current_conductorId s) (epochMs (clock s (S (tick s)))))
                (ls_trips s)))) as [Hn|Hn]; [lia|].
    rewrite loadData_eq. cbn [snd]. proj_simpl.
    eexists _, _. split; [reflexivity|]. cbn [new_trip trip_groupId trip_shift
      trip_passengerId trip_passengerName trip_passengerCedula trip_status
      trip_endTime trip_conductorId trip_ruta].
    repeat (split; [done|]). split; [|done].
    apply lookup_insert_eq.
Qed.

(** X21. The page keeps listing as active exactly the stored trips that are
    under way, through every action but one: a confirmed [finalizarRuta] on
    a page that holds a promise where it expects its conductors, which
    stops before it reloads. *)
Theorem in_step_kept a s :
  in_step s -> reaches_loadData a s -> in_step (exec (perform a) s).
Proof.
  intros Hs Hreach. unfold exec, in_step.
  destruct a as [p|tripId|ruta [|]|v]; unfold perform.
  - destruct (conductors s) as [cs|cs] eqn:Hc.
    + destruct (shift s) as [sh|] eqn:Hsh.
      * rewrite (iniciarViaje_array p s cs sh Hc Hsh), ensureGroup_eq. cbv zeta.
        destruct (or_null _); destruct (18 <=? _)%nat; try exact Hs; done.
      * by rewrite (iniciarViaje_no_shift p s cs Hc Hsh).
    + by rewrite (iniciarViaje_promise p s cs Hc).
  - by rewrite finalizarViaje_eq.
  - destruct (Hreach ruta eq_refl) as [cs Hc].
    rewrite finalizarRuta_eq. cbv zeta. by rewrite Hc.
  - exact Hs.
  - rewrite selectShift_eq. by destruct (conductors s).
Qed.

(** Where that action runs, the page goes on listing as active the trips it
    has just finalized in the store. *)
Example in_step_lost :
  let s' := exec (finalizarRuta sample_route true) state_reloaded in
  in_step state_reloaded /\
  map trip_status (ls_trips s') = [finalizado] /\
  map trip_status (activeTrips s') = [en_curso].
Proof. cbv zeta. by vm_compute. Qed.

Lemma perform_loaded a s :
  loaded s ->
  loaded (exec (perform a) s) /\
  map trip_id (ls_trips (exec (perform a) s)) = map trip_id (ls_trips s).
Proof.
  intros [[ps Hps] [cs Hcs]]. unfold exec, loaded.
  destruct a as [p|tripId|ruta [|]|v]; unfold perform.
  - rewrite (iniciarViaje_promise p s cs Hcs). cbn [snd]. by eauto.
  - rewrite finalizarViaje_eq, loadData_eq. cbn [snd]. proj_simpl.
    rewrite stamp_ids. by eauto.
  - rewrite finalizarRuta_eq. cbv zeta. rewrite Hcs. cbn [snd]. proj_simpl.
    rewrite stamp_ids. by eauto.
  - rewrite finalizarRuta_declined. cbn [snd]. by eauto.
  - rewrite selectShift_eq, Hcs. cbn [snd]. proj_simpl. by eauto.
Qed.

(** X25. Once [loadData] has run, the page holding promises where it
    expects its passengers and conductors, no sequence of actions (start,
    finalize one, finalize route, shift selection) adds a trip: the stored
    trips keep their number and their ids, every start call throwing before
    it stores anything, and the page stays as [loadData] left it in that
    respect. *)
Theorem no_trip_added_after_load acts s :
  loaded s ->
  loaded (run acts s) /\
  map trip_id (ls_trips (run acts s)) = map trip_id (ls_trips s) /\
  forall p, completion (iniciarViaje p) (run acts s) = Throw TypeError /\
            exec (iniciarViaje p) (run acts s) = run acts s.
Proof.
  revert s. induction acts as [|a acts IH]; intros s Hs.
  - split; [done|]. split; [done|]. intros p. destruct Hs as [_ [cs Hcs]].
    cbn [run]. unfold completion, exec. by rewrite (iniciarViaje_promise p s cs Hcs).
  - simpl. destruct (perform_loaded a s Hs) as [Hs' Hids].
    destruct (IH _ Hs') as (Hl & Hi & Hp). split; [done|]. split; [|done].
    by rewrite Hi.
Qed.

End PageInvariants.

Lemma capacity_kept_witness :
  within_capacity
    (ls_trips (run [Start sample_passenger; FinalizeOne "1741078800000";
                    FinalizeRoute sample_route true] state_18_finalized)).
Proof.
  apply capacity_kept. intros g. unfold group_trips.
  etransitivity; [apply List.filter_length_le|]. reflexivity.
Defined.

Lemma sample_clock_increasing : increasing state_one_active.
Proof.
  intros i j Hij. change (clock state_one_active) with sample_clock.
  unfold sample_clock. cbn [epochMs]. lia.
Qed.

Lemma ids_stay_distinct_witness :
  NoDup (map trip_id
           (ls_trips (run [FinalizeOne "1741078800000"; Start sample_passenger]
                        state_one_active))).
Proof.
  apply ids_stay_distinct.
  - exact sample_clock_increasing.
  - intros i Hi. apply list_elem_of_singleton in Hi as ->.
    exists 1741078800000%N. split; [reflexivity|]. reflexivity.
  - apply NoDup_singleton.
Defined.

Lemma started_trip_bound_witness :
  exists t g,
    ls_trips (exec (iniciarViaje sample_passenger) state_empty) = [t] /\
    trip_groupId t = Some g /\
    ls_items (exec (iniciarViaje sample_passenger) state_empty)
      !! groupStorageKey (trip_conductorId t) (trip_ruta t) (trip_shift t) "2025-03-04"
    = Some g.
Proof.
  destruct (started_trip_bound sample_passenger state_empty [] manana "2025-03-04")
    as (t & g & Ht & Hg & _ & _ & _ & _ & _ & _ & Hbound & _);
    [reflexivity | reflexivity | exact sample_clock_day | vm_compute; lia |].
  exists t, g. split; [exact Ht|]. split; [exact Hg | exact Hbound].
Defined.

Lemma in_step_kept_witness :
  in_step (exec (finalizarViaje "1741078800000") state_one_active).
Proof.
  apply (in_step_kept (FinalizeOne "1741078800000") state_one_active).
  - reflexivity.
  - intros ruta H. discriminate H.
Defined.

Lemma no_trip_added_after_load_witness :
  map trip_id
    (ls_trips (run [Start sample_passenger; FinalizeOne "1741078800000";
                    Start sample_passenger] state_reloaded))
  = ["1741078800000"].
Proof.
  destruct (no_trip_added_after_load
              [Start sample_passenger; FinalizeOne "1741078800000";
               Start sample_passenger] state_reloaded) as (_ & Hids & _).
  - split; eexists; reflexivity.
  - rewrite Hids. reflexivity.
Defined.
